(** * Translate plugin: selection mode, progress tracker, result cache,
      batch orchestrator and the OpenRouter backend

    A shallow embedding of
      - src/plugins/translate/translationStore.ts
      - src/plugins/translate/progressBar.tsx
      - src/plugins/translate/selectionMode.tsx
      - src/plugins/translate/openrouter.ts
    Module-level [let] variables become the fields of a state record that
    every function takes and returns.  JS objects used as dictionaries are
    finite maps, the JS [Set] is a duplicate-free list in insertion order,
    numbers that only ever hold integers are [Z].  Calls that leave the
    module (toasts, listener notification, console output, the network
    relay, the key-value store) are recorded in a trace or answered by an
    oracle that is a parameter of the function. *)

From stdpp Require Import gmap strings list pretty.
From Stdlib Require Import ZArith Lia Ascii Sorting.Sorted Permutation.

Local Open Scope Z_scope.

(** ** JavaScript helpers *)

(** [!v] for a value that is a string, [null] or [undefined]: the empty
    string is falsy as well. *)
Definition truthy (v : option string) : bool :=
  match v with
  | Some s => bool_decide (s ≠ "")
  | None => false
  end.

(** [Array.prototype.sort(cmp)].  The sort is stable and, for a consistent
    comparator, its result is determined by that; it is written here as the
    stable insertion sort: an element goes in front of the first element it
    does not compare greater than. *)
Section js_sort.
Context {A : Type} (cmp : A → A → Z).

Fixpoint sort_insert (x : A) (l : list A) : list A :=
  match l with
  | [] => [x]
  | y :: l' => if cmp x y <=? 0 then x :: y :: l' else y :: sort_insert x l'
  end.

Definition js_sort (l : list A) : list A := foldr sort_insert [] l.
End js_sort.

(** Values thrown by the embedded functions: an [Error] (or an instance of
    one of its subclasses) with its message, or anything else. *)
Inductive thrown :=
| Error (message : string)
| NonError.

(** [e instanceof Error ? e.message : fallback] *)
Definition message_or (fallback : string) (e : thrown) : string :=
  match e with
  | Error m => m
  | NonError => fallback
  end.

Inductive toast_type := MESSAGE | SUCCESS | FAILURE.

(** Modelled from the spec: the type [TranslationValue] of utils.ts, which
    is not among the sources; the spec's TranslationResult
    [{ text: string, sourceLanguage: string }]. *)
Record TranslationValue := {
  tv_text : string;
  tv_sourceLanguage : string
}.

(** ** translationStore.ts *)
Module TranslationStore.

(** Modelled from the spec: the type [SavedTranslation] of settings.ts,
    which is not among the sources:
    [{ text, sourceLanguage, model?, timestamp: epoch-millis }]. *)
Record SavedTranslation := {
  text : string;
  sourceLanguage : string;
  model : option string;
  timestamp : Z
}.

(** Requests sent to the host's [DataStore], in the order issued. *)
Inductive ds_call :=
| DsGet
| DsSet (v : gmap string SavedTranslation)
| DsDel.

(** [_cache] and [_loaded] are the module's variables; [persisted] is the
    entry stored under [DB_KEY] in the host's key-value store (absent or
    a mapping); [ds_calls] records the requests made to that store. *)
Record store := Store {
  _cache : gmap string SavedTranslation;
  _loaded : bool;
  persisted : option (gmap string SavedTranslation);
  ds_calls : list ds_call
}.

(** The module as it is when the script has just been evaluated. *)
Definition fresh (db : option (gmap string SavedTranslation)) : store :=
  Store ∅ false db [].

Definition set_cache (c : gmap string SavedTranslation) (w : store) : store :=
  Store c (_loaded w) (persisted w) (ds_calls w).

Definition set_loaded (b : bool) (w : store) : store :=
  Store (_cache w) b (persisted w) (ds_calls w).

(** The key-value store serves its requests in the order they are issued,
    so a request takes effect when it is issued and its answer is handed
    over when the caller resumes. *)
Definition DataStore_get (w : store)
  : option (gmap string SavedTranslation) * store :=
  (persisted w, Store (_cache w) (_loaded w) (persisted w) (ds_calls w ++ [DsGet])).

Definition DataStore_set (v : gmap string SavedTranslation) (w : store) : store :=
  Store (_cache w) (_loaded w) (Some v) (ds_calls w ++ [DsSet v]).

Definition DataStore_del (w : store) : store :=
  Store (_cache w) (_loaded w) None (ds_calls w ++ [DsDel]).

(** *** Each call run to completion on its own *)

Definition ensureLoaded (w : store) : store :=
  if _loaded w then w
  else
    let '(v, w) := DataStore_get w in
    set_loaded true (set_cache (default ∅ v) w).

Definition get (messageId : string) (w : store) : option SavedTranslation :=
  _cache w !! messageId.

(** [now] is the value [Date.now()] returns in this call. *)
Definition save (now : Z) (messageId : string) (result : TranslationValue)
    (model : option string) (w : store) : store :=
  let w := ensureLoaded w in
  let saved := {| text := tv_text result;
                  sourceLanguage := tv_sourceLanguage result;
                  model := model;
                  timestamp := now |} in
  let w := set_cache (<[messageId := saved]> (_cache w)) w in
  DataStore_set (_cache w) w.

Definition delete (messageId : string) (w : store) : store :=
  let w := ensureLoaded w in
  let w := set_cache (base.delete messageId (_cache w)) w in
  DataStore_set (_cache w) w.

Definition clearAll (w : store) : store :=
  let w := set_cache ∅ w in
  DataStore_del w.

(** The comparator of [getAll]: [([, a], [, b]) => b.timestamp - a.timestamp]. *)
Definition newest_first (x y : string * SavedTranslation) : Z :=
  timestamp (snd y) - timestamp (snd x).

Definition entries_sorted (w : store) : list (string * SavedTranslation) :=
  js_sort newest_first (map_to_list (_cache w)).

Definition getAll (w : store) : list (string * SavedTranslation) * store :=
  let w := ensureLoaded w in
  (entries_sorted w, w).

Definition count (w : store) : nat := size (_cache w).

Definition load (w : store) : store := ensureLoaded w.

(** *** The same calls cut at their [await]s

    An [async] call runs in turns; between two turns of one call, turns
    of other calls may run.  A [task] is a call together with the place
    where it is suspended. *)
Inductive op :=
| CallLoad
| CallSave (now : Z) (messageId : string) (result : TranslationValue) (model : option string)
| CallDelete (messageId : string)
| CallClearAll
| CallGetAll.

Inductive task :=
| Called (o : op)
  (** the call has been made, nothing of its body has run *)
| InGet (o : op) (v : option (gmap string SavedTranslation))
  (** inside [ensureLoaded], at [await DataStore.get(DB_KEY)]; [v] is
      the answer on its way *)
| Hydrated (o : op)
  (** at [await ensureLoaded()], which has returned *)
| InWrite
  (** at [await DataStore.set(...)] or [await DataStore.del(...)] *)
| Returned (r : option (list (string * SavedTranslation))).

Definition turn (t : task) (w : store) : task * store :=
  match t with
  | Called CallClearAll => (InWrite, clearAll w)
  | Called o =>
      if _loaded w then (Hydrated o, w)
      else let '(v, w) := DataStore_get w in (InGet o v, w)
  | InGet o v => (Hydrated o, set_loaded true (set_cache (default ∅ v) w))
  | Hydrated CallLoad => (Returned None, w)
  | Hydrated (CallSave now messageId result model) =>
      let saved := {| text := tv_text result;
                      sourceLanguage := tv_sourceLanguage result;
                      model := model;
                      timestamp := now |} in
      let w := set_cache (<[messageId := saved]> (_cache w)) w in
      (InWrite, DataStore_set (_cache w) w)
  | Hydrated (CallDelete messageId) =>
      let w := set_cache (base.delete messageId (_cache w)) w in
      (InWrite, DataStore_set (_cache w) w)
  | Hydrated CallGetAll => (Returned (Some (entries_sorted w)), w)
  | Hydrated CallClearAll => (InWrite, w)
  | InWrite => (Returned None, w)
  | Returned r => (Returned r, w)
  end.

(** ([clearAll] does not pass through [ensureLoaded]: [Hydrated CallClearAll]
    is never reached from [Called CallClearAll].)

    Several calls in flight: a schedule names, turn after turn, the task
    that runs next. *)
Definition step (i : nat) (c : list task * store) : list task * store :=
  match fst c !! i with
  | Some t => let '(t', w) := turn t (snd c) in (<[i := t']> (fst c), w)
  | None => c
  end.

Definition run_schedule (sched : list nat) (c : list task * store)
  : list task * store :=
  foldl (λ c i, step i c) c sched.

(** One call alone takes at most four turns. *)
Definition complete (t : task) (w : store) : task * store :=
  let c := run_schedule [0; 0; 0; 0]%nat ([t], w) in
  (default t (fst c !! 0%nat), snd c).

Definition is_get (c : ds_call) : bool :=
  match c with DsGet => true | _ => false end.

(** How many times the persisted mapping has been asked for. *)
Definition loads (w : store) : nat :=
  length (List.filter is_get (ds_calls w)).

(** Sequences of mutating calls, each awaited before the next is made. *)
Inductive request :=
| ReqSave (now : Z) (messageId : string) (result : TranslationValue) (model : option string)
| ReqDelete (messageId : string)
| ReqClearAll.

Definition serve (w : store) (r : request) : store :=
  match r with
  | ReqSave now messageId result model => save now messageId result model w
  | ReqDelete messageId => delete messageId w
  | ReqClearAll => clearAll w
  end.

Definition serve_all (rs : list request) (w : store) : store := foldl serve w rs.

(** The mapping a store stands for: the persisted mapping as long as it
    has not been read, the cache from then on. *)
Definition contents (w : store) : gmap string SavedTranslation :=
  if _loaded w then _cache w else default ∅ (persisted w).

(** The net effect of a request on a mapping, in the spec's words: [save]
    upserts, [delete] removes, [clearAll] empties. *)
Definition net_effect (m : gmap string SavedTranslation) (r : request)
  : gmap string SavedTranslation :=
  match r with
  | ReqSave now messageId result model =>
      <[messageId := {| text := tv_text result;
                        sourceLanguage := tv_sourceLanguage result;
                        model := model;
                        timestamp := now |}]> m
  | ReqDelete messageId => base.delete messageId m
  | ReqClearAll => ∅
  end.

(** A task that is not waiting for the answer of a hydration. *)
Definition not_hydrating (t : task) : Prop :=
  match t with
  | InGet _ _ => False
  | _ => True
  end.

(** Newest first. *)
Definition not_older (x y : string * SavedTranslation) : Prop :=
  timestamp (snd y) ≤ timestamp (snd x).

End TranslationStore.

(** ** progressBar.tsx *)
Module ProgressBar.

(** [_progress] holds 0, 100 or [Math.round((_current / _total) * 100)].
    The last is computed in double arithmetic; it is kept as the
    expression it is and never evaluated. *)
Inductive percent :=
| Pct (n : Z)
| RoundedRatio (current total : Z).

(** [notified] counts the calls of [notifyListeners] (the listeners are
    the re-render requests of mounted components); [timers] counts the
    reset callbacks handed to [setTimeout] that have not run yet. *)
Record state := State {
  _isTranslating : bool;
  _progress : percent;
  _total : Z;
  _current : Z;
  notified : nat;
  timers : nat
}.

Definition initial : state := State false (Pct 0) 0 0 0 0.

(** [startProgress(total: number = 1)] *)
Definition startProgress (total : option Z) (s : state) : state :=
  State true (Pct 0) (default 1 total) 0 (S (notified s)) (timers s).

Definition updateProgress (current : option Z) (s : state) : state :=
  let c := match current with
           | Some c => c
           | None => _current s + 1
           end in
  let p := if 0 <? _total s then RoundedRatio c (_total s) else Pct 0 in
  State (_isTranslating s) p (_total s) c (S (notified s)) (timers s).

Definition endProgress (s : state) : state :=
  State false (Pct 100) (_total s) (_current s) (S (notified s)) (S (timers s)).

(** The callback of [setTimeout(..., 500)] in [endProgress], when it runs. *)
Definition reset_callback (s : state) : state :=
  State (_isTranslating s) (Pct 0) 0 0 (S (notified s)) (Nat.pred (timers s)).

(** [showDeterminate] of [TranslationProgressBar]. *)
Definition showDeterminate (s : state) : bool := 1 <? _total s.

(** What can happen to the tracker: the three exported calls, and a
    pending reset callback running. *)
Inductive call :=
| CStart (total : option Z)
| CUpdate (current : option Z)
| CEnd
| CTimeout.

Definition apply (s : state) (c : call) : state :=
  match c with
  | CStart total => startProgress total s
  | CUpdate current => updateProgress current s
  | CEnd => endProgress s
  | CTimeout => match timers s with O => s | S _ => reset_callback s end
  end.

Definition run (cs : list call) (s : state) : state := foldl apply s cs.

(** The Progress State invariant of the data model. *)
Definition invariant (s : state) : Prop :=
  0 < _total s → 0 ≤ _current s ≤ _total s.

(** A call that keeps within the range announced by [startProgress]:
    an explicit position lies in [0, total], an increment is made only
    below [total]. *)
Definition within_total (s : state) (c : call) : Prop :=
  match c with
  | CUpdate (Some p) => 0 < _total s → 0 ≤ p ≤ _total s
  | CUpdate None => 0 < _total s → _current s < _total s
  | _ => True
  end.

Fixpoint all_within_total (s : state) (cs : list call) : Prop :=
  match cs with
  | [] => True
  | c :: cs' => within_total s c ∧ all_within_total (apply s c) cs'
  end.

End ProgressBar.

(** ** selectionMode.tsx: the selection state *)
Module SelectionMode.

Inductive ui_event :=
| Notified
| Toast (msg : string) (type : toast_type).

(** [_selectedIds] is a [Set<string>]: no duplicates, iterated in
    insertion order.  [ui] records [notifyListeners()] and [showToast]. *)
Record state := State {
  _isSelectionMode : bool;
  _selectedIds : list string;
  _currentChannelId : option string;
  _lastSelectedId : option string;
  ui : list ui_event
}.

Definition initial : state := State false [] None None [].

Definition set_has (x : string) (l : list string) : bool := bool_decide (x ∈ l).

Definition set_add (x : string) (l : list string) : list string :=
  if set_has x l then l else l ++ [x].

Definition set_delete (x : string) (l : list string) : list string :=
  List.filter (λ y, bool_decide (y ≠ x)) l.

Definition isInSelectionMode (s : state) : bool := _isSelectionMode s.

Definition getSelectionChannelId (s : state) : option string := _currentChannelId s.

Definition toggleSelectionMode (s : state) : state :=
  let mode := negb (_isSelectionMode s) in
  let toast :=
    Toast (if mode then "Multi-select mode ON - Click messages to select"
           else "Multi-select mode OFF") MESSAGE in
  if mode
  then State mode (_selectedIds s) (_currentChannelId s) (_lastSelectedId s)
             (ui s ++ [Notified; toast])
  else State mode [] None None (ui s ++ [Notified; toast]).

Definition exitSelectionMode (s : state) : state :=
  State false [] None None (ui s ++ [Notified]).

Definition isMessageSelected (messageId : string) (s : state) : bool :=
  set_has messageId (_selectedIds s).

Definition toggleMessageSelection (messageId channelId : string) (s : state) : state :=
  if negb (_isSelectionMode s) then s
  else
    let '(ids, channel, last) :=
      if negb (truthy (_currentChannelId s))
      then (_selectedIds s, Some channelId, _lastSelectedId s)
      else if bool_decide (_currentChannelId s ≠ Some channelId)
      then ([], Some channelId, None)
      else (_selectedIds s, _currentChannelId s, _lastSelectedId s) in
    let ids := if set_has messageId ids
               then set_delete messageId ids
               else set_add messageId ids in
    State (_isSelectionMode s) ids channel (Some messageId) (ui s ++ [Notified]).

Definition getSelectedCount (s : state) : nat := length (_selectedIds s).

(** The transitions of the state machine. *)
Inductive call :=
| Toggle
| Exit
| Select (messageId channelId : string).

Definition apply (s : state) (c : call) : state :=
  match c with
  | Toggle => toggleSelectionMode s
  | Exit => exitSelectionMode s
  | Select messageId channelId => toggleMessageSelection messageId channelId s
  end.

Definition run (cs : list call) : state := foldl apply initial cs.

(** The channel argument of the latest [select] of [messageId] in a
    history, if there is one. *)
Fixpoint selected_in (messageId : string) (cs : list call) : option string :=
  match cs with
  | [] => None
  | c :: cs' =>
      match selected_in messageId cs' with
      | Some ch => Some ch
      | None =>
          match c with
          | Select m ch => if bool_decide (m = messageId) then Some ch else None
          | _ => None
          end
      end
  end.

Definition channel_of (c : call) : option string :=
  match c with
  | Select _ ch => Some ch
  | _ => None
  end.

(** The two steps of a select made in selection mode: the ids kept when
    the channel is looked at, then the membership of the message flipped. *)
Definition kept_ids (ch : string) (s : state) : list string :=
  if truthy (_currentChannelId s)
  then if bool_decide (_currentChannelId s = Some ch) then _selectedIds s else []
  else _selectedIds s.

Definition flipped (m : string) (ids : list string) : list string :=
  if set_has m ids then set_delete m ids else set_add m ids.

End SelectionMode.

(** ** selectionMode.tsx: [handleTranslateSelected] of [SelectionActionBar] *)
Module SelectionActionBar.

(** The fields of a Discord [Message] the handler reads. *)
Record Message := {
  id : string;
  content : string
}.

Inductive direction := received | sent.

(** What the handler asks of its surroundings.
    - [getMessages channelId] is [MessageStore.getMessages(channelId).toArray()];
    - [translate n d text] is the outcome of the [n]-th call (from 0) of
      [translate] of utils.ts made by one run of the handler: the value
      the awaited promise resolves to, or the value it is rejected with;
    - [Date_now n] is the clock reading taken by the save of the [n]-th item;
    - [service] and [openrouterModel] are [settings.store]'s. *)
Record host := {
  getMessages : string → list Message;
  translate : nat → direction → string → thrown + TranslationValue;
  Date_now : nat → Z;
  service : string;
  openrouterModel : option string
}.

(** Every call the handler makes, in order. *)
Inductive event :=
| SetIsTranslating (b : bool)
| StartProgress (total : Z)
| Translate (d : direction) (text : string)
| HandleTranslate (messageId : string) (data : TranslationValue)
| StoreSave (messageId : string) (result : TranslationValue) (model : option string)
| UpdateProgress (current : Z)
| ShowToast (msg : string) (type : toast_type)
| EndProgress
| ExitSelectionMode.

(** The process-wide state the handler works on, the component's
    [isTranslating] and the trace of calls. *)
Record app := App {
  selection : SelectionMode.state;
  progress : ProgressBar.state;
  translations : TranslationStore.store;
  isTranslating : bool;
  events : list event
}.

Definition emit (e : event) (a : app) : app :=
  App (selection a) (progress a) (translations a) (isTranslating a) (events a ++ [e]).

Definition setIsTranslating (b : bool) (a : app) : app :=
  emit (SetIsTranslating b)
    (App (selection a) (progress a) (translations a) b (events a)).

Definition startProgress (total : Z) (a : app) : app :=
  emit (StartProgress total)
    (App (selection a) (ProgressBar.startProgress (Some total) (progress a))
         (translations a) (isTranslating a) (events a)).

Definition updateProgress (current : Z) (a : app) : app :=
  emit (UpdateProgress current)
    (App (selection a) (ProgressBar.updateProgress (Some current) (progress a))
         (translations a) (isTranslating a) (events a)).

Definition endProgress (a : app) : app :=
  emit EndProgress
    (App (selection a) (ProgressBar.endProgress (progress a))
         (translations a) (isTranslating a) (events a)).

Definition exitSelectionMode (a : app) : app :=
  emit ExitSelectionMode
    (App (SelectionMode.exitSelectionMode (selection a)) (progress a)
         (translations a) (isTranslating a) (events a)).

(** [TranslationStore.save(...)] is not awaited: the rest of its body runs
    while the handler waits for the next provider call, so it has run when
    the handler goes on.  (With the store hydrated, as the plugin's
    [start()] sees to, that is the only order there is; saves racing a
    hydration still under way are the matter of the schedules of
    [TranslationStore.run_schedule].) *)
Definition storeSave (now : Z) (messageId : string) (result : TranslationValue)
    (model : option string) (a : app) : app :=
  emit (StoreSave messageId result model)
    (App (selection a) (progress a)
         (TranslationStore.save now messageId result model (translations a))
         (isTranslating a) (events a)).

(** [settings.store.service === "openrouter" ? settings.store.openrouterModel : undefined] *)
Definition model_setting (h : host) : option string :=
  if bool_decide (service h = "openrouter") then openrouterModel h else None.

(** The body of the [for] loop for an item whose translation arrived. *)
Definition translated (h : host) (i : nat) (msg : Message) (trans : TranslationValue)
    (a : app) : app :=
  let a := emit (HandleTranslate (id msg) trans) a in
  let a := storeSave (Date_now h i) (id msg) trans (model_setting h) a in
  updateProgress (Z.of_nat (i + 1)) a.

(** The [for] loop from index [i] on, over the items not yet visited;
    it ends with the value thrown, if one was. *)
Fixpoint translate_from (h : host) (i : nat) (msgs : list Message) (a : app)
  : option thrown * app :=
  match msgs with
  | [] => (None, a)
  | msg :: rest =>
      let a := emit (Translate received (content msg)) a in
      match translate h i received (content msg) with
      | inl e => (Some e, a)
      | inr trans => translate_from h (S i) rest (translated h i msg trans a)
      end
  end.

(** [messages.filter(m => _selectedIds.has(m.id) && m.content)] *)
Definition selectedMessages (h : host) (channelId : string) (a : app) : list Message :=
  List.filter
    (λ m, SelectionMode.set_has (id m) (SelectionMode._selectedIds (selection a))
          && bool_decide (content m ≠ ""))
    (getMessages h channelId).

(** [channelId] and [selectedCount] are the values of the last render,
    which every change of the selection state requests anew: they are
    read from the state. *)
Definition handleTranslateSelected (h : host) (a : app) : app :=
  match SelectionMode._currentChannelId (selection a) with
  | None => a
  | Some channelId =>
      if bool_decide (channelId = "")
         || (SelectionMode.getSelectedCount (selection a) =? 0)%nat
      then a
      else
        let a := setIsTranslating true a in
        let selected := selectedMessages h channelId a in
        let a := startProgress (Z.of_nat (length selected)) a in
        let '(err, a) := translate_from h 0 selected a in
        let a := match err with
                 | None =>
                     emit (ShowToast ("Translated " +:+ pretty (length selected)
                                      +:+ " messages") SUCCESS) a
                 | Some e =>
                     emit (ShowToast (message_or "Translation failed" e) FAILURE) a
                 end in
        let a := endProgress a in
        let a := setIsTranslating false a in
        exitSelectionMode a
  end.

(** The toast that closes the [try] block, after the loop or in [catch]. *)
Definition closing_toast (n : nat) (err : option thrown) : event :=
  match err with
  | None => ShowToast ("Translated " +:+ pretty n +:+ " messages") SUCCESS
  | Some e => ShowToast (message_or "Translation failed" e) FAILURE
  end.

(** Reading the trace. *)
Definition is_translate (e : event) : bool :=
  match e with Translate _ _ => true | _ => false end.
Definition is_save (e : event) : bool :=
  match e with StoreSave _ _ _ => true | _ => false end.
Definition is_end (e : event) : bool :=
  match e with EndProgress => true | _ => false end.



(** What a batch is expected to leave behind when the items [items]
    (messages with the translations the provider gave), numbered from
    [i], have gone through: per item one provider call, the result shown,
    the result saved, the progress moved to the item's number. *)
Definition item_trace (model : option string) (i : nat) (msg : Message)
    (trans : TranslationValue) : list event :=
  [Translate received (content msg);
   HandleTranslate (id msg) trans;
   StoreSave (id msg) trans model;
   UpdateProgress (Z.of_nat (i + 1))].

Fixpoint batch_trace (model : option string) (i : nat)
    (items : list (Message * TranslationValue)) : list event :=
  match items with
  | [] => []
  | (msg, trans) :: rest => item_trace model i msg trans ++ batch_trace model (S i) rest
  end.





End SelectionActionBar.

(** ** openrouter.ts *)
Module OpenRouter.

(** The answer of the privileged relay: an HTTP status, or -1, and the
    body or the description of the failure. *)
Record response := {
  status : Z;
  data : string
}.

Record OpenRouterModel := {
  id : string;
  name : string;
  pricing : option (string * string)
}.

(** [OpenRouterChatResponse], with every part the code reaches through
    [?.] allowed to be missing. *)
Record ChatMessage := { content : option string }.
Record ChatChoice := { message : option ChatMessage }.
Record OpenRouterChatResponse := {
  choices : option (list ChatChoice);
  error : option (string * Z)
}.

(** A stored setting that should be a string: unset, a string, the
    legacy object [{ value }], or something else. *)
Inductive setting :=
| Unset
| Str (s : string)
| Legacy (value : string)
| Other.

Record settings := Settings {
  openrouterApiKey : option string;
  openrouterModel : setting;
  openrouterModelsCache : option (list OpenRouterModel)
}.

Inductive event :=
| ShowToast (msg : string) (type : toast_type)
| ModelsRequest (apiKey : string)
| TranslateRequest (apiKey model prompt : string)
| ConsoleWarn (expected received : nat)
| ConsoleError.

Definition normalizeValue (v : setting) (fallback : string) : string :=
  match v with
  | Str s => s
  | Legacy value => value
  | _ => fallback
  end.

(** [content.match(/\[[\s\S]*\]/)]: from the first opening bracket to
    the last closing bracket after it. *)
Fixpoint from_first_open (s : string) : option string :=
  match s with
  | EmptyString => None
  | String c s' => if Ascii.eqb c "["%char then Some s else from_first_open s'
  end.

Fixpoint upto_last_close (s : string) : option string :=
  match s with
  | EmptyString => None
  | String c s' =>
      match upto_last_close s' with
      | Some p => Some (String c p)
      | None => if Ascii.eqb c "]"%char then Some (String c EmptyString) else None
      end
  end.

Definition match_array (content : string) : option string :=
  match from_first_open content with
  | Some rest => upto_last_close rest
  | None => None
  end.

Definition nl : string := String "010"%char EmptyString.

(** The character [c] occurs in [s]. *)
Fixpoint occurs (c : ascii) (s : string) : Prop :=
  match s with
  | EmptyString => False
  | String c' s' => c' = c ∨ occurs c s'
  end.

(** The settings [translateWithLLM] reads: those above and the prompt
    template. *)
Record llm_settings := {
  store : settings;
  openrouterPrompt : setting
}.

Section relay.
(** The relay's two calls, and the library functions the code uses:
    [JSON.parse] at the three types the code reads its result at ([None]
    when it throws, and then [syntax_error] is the message of the
    [SyntaxError] thrown), [JSON.stringify(texts, null, 2)],
    [String.prototype.localeCompare] and [String.prototype.trim]. *)
Variable fetchOpenRouterModels : string → response.
Variable makeOpenRouterTranslateRequest : string → string → string → response.
Variable parse_models : string → option (list OpenRouterModel).
Variable parse_chat : string → option OpenRouterChatResponse.
Variable parse_strings : string → option (list string).
Variable syntax_error : string → string.
Variable stringify : list string → string.
Variable localeCompare : string → string → Z.
Variable trim : string → string.

Definition by_name (a b : OpenRouterModel) : Z := localeCompare (name a) (name b).

Definition fetchModels (s : settings)
  : (thrown + list OpenRouterModel) * settings * list event :=
  match openrouterApiKey s with
  | None => (inl (Error "OpenRouter API key is not set"), s, [])
  | Some apiKey =>
      if bool_decide (apiKey = "")
      then (inl (Error "OpenRouter API key is not set"), s, [])
      else
        let r := fetchOpenRouterModels apiKey in
        let ev := [ModelsRequest apiKey] in
        if status r =? -1
        then (inl (Error ("Failed to connect to OpenRouter API: " +:+ data r)), s, ev)
        else if status r =? 401
        then (inl (Error "Invalid OpenRouter API key"), s, ev)
        else if negb (status r =? 200)
        then (inl (Error ("Failed to fetch models: " +:+ pretty (status r)
                          +:+ " " +:+ data r)), s, ev)
        else
          match parse_models (data r) with
          | None => (inl (Error (syntax_error (data r))), s, ev)
          | Some listed =>
              let models :=
                js_sort by_name
                  (map (λ m, {| id := id m; name := name m; pricing := pricing m |})
                       listed) in
              let cache :=
                map (λ m, {| id := id m; name := name m; pricing := None |}) models in
              (inr models,
               Settings (openrouterApiKey s) (openrouterModel s) (Some cache),
               ev)
          end
  end.

Definition getModels (s : settings)
  : (thrown + list OpenRouterModel) * settings * list event :=
  match openrouterModelsCache s with
  | Some cached =>
      if (0 <? length cached)%nat then (inr cached, s, []) else fetchModels s
  | None => fetchModels s
  end.

Definition batch_prompt (texts : list string) (targetLang : string) : string :=
  "Translate the following " +:+ pretty (length texts) +:+ " messages to "
    +:+ targetLang +:+ ". " +:+ nl
    +:+ "Return ONLY a JSON array of strings, where each element corresponds to the input message. "
    +:+ nl
    +:+ "Preserve formatting, emojis, and markdown inside each string." +:+ nl
    +:+ "Do not include any commentary." +:+ nl
    +:+ nl
    +:+ "Input messages:" +:+ nl
    +:+ stringify texts.

(** [response.choices?.[0]?.message?.content] *)
Definition first_content (r : OpenRouterChatResponse) : option string :=
  match choices r with
  | Some (choice :: _) =>
      match message choice with
      | Some m => content m
      | None => None
      end
  | _ => None
  end.

Definition as_translation (text : string) : TranslationValue :=
  {| tv_sourceLanguage := "LLM"; tv_text := trim text |}.

Definition translateBatchWithLLM (s : settings) (texts : list string) (targetLang : string)
  : (thrown + list TranslationValue) * list event :=
  let model := normalizeValue (openrouterModel s) "openai/gpt-4o-mini" in
  if negb (truthy (openrouterApiKey s))
  then (inl (Error "OpenRouter API key is not set"),
        [ShowToast "OpenRouter API key is not set. Please configure it in settings." FAILURE])
  else
    let apiKey := default "" (openrouterApiKey s) in
    if (length texts =? 0)%nat then (inr [], [])
    else
      let prompt := batch_prompt texts targetLang in
      let r := makeOpenRouterTranslateRequest apiKey model prompt in
      let ev := [TranslateRequest apiKey model prompt] in
      if negb (status r =? 200)
      then (inl (Error ("OpenRouter Batch API error: " +:+ pretty (status r)
                        +:+ " " +:+ data r)), ev)
      else
        match parse_chat (data r) with
        | None => (inl (Error (syntax_error (data r))), ev)
        | Some resp =>
            let content := first_content resp in
            if negb (truthy content)
            then (inl (Error "No translation returned from OpenRouter"), ev)
            else
              (* the [try] block: whatever is thrown inside is logged
                 and replaced *)
              let failed :=
                (inl (Error "Failed to parse batch translation results"),
                 ev ++ [ConsoleError]) in
              match match_array (default "" content) with
              | None => failed
              | Some jsonMatch =>
                  match parse_strings jsonMatch with
                  | None => failed
                  | Some results =>
                      let ev :=
                        if negb (length results =? length texts)%nat
                        then ev ++ [ConsoleWarn (length texts) (length results)]
                        else ev in
                      (inr (map as_translation results), ev)
                  end
              end
        end.

(** [getModelDisplayName]: [cached?.find(m => m.id === modelId)?.name ?? modelId] *)
Definition getModelDisplayName (s : settings) (modelId : string) : string :=
  match openrouterModelsCache s with
  | Some cached =>
      match List.find (λ m, bool_decide (id m = modelId)) cached with
      | Some m => name m
      | None => modelId
      end
  | None => modelId
  end.

(** [s.replace(/\{\{name\}\}/g, replacement)], as
    [replace_placeholder name replacement s]: the library's global replace,
    with its treatment of [$] in the replacement. *)
Variable replace_placeholder : string → string → string → string.

Definition llm_prompt (s : llm_settings) (text targetLang : string) : string :=
  let promptTemplate :=
    normalizeValue (openrouterPrompt s) "Translate to {{targetLanguage}}: {{message}}" in
  replace_placeholder "message" text
    (replace_placeholder "targetLanguage" targetLang promptTemplate).

Definition translateWithLLM (s : llm_settings) (text targetLang : string)
  : (thrown + TranslationValue) * list event :=
  let model := normalizeValue (openrouterModel (store s)) "openai/gpt-4o-mini" in
  if negb (truthy (openrouterApiKey (store s)))
  then (inl (Error "OpenRouter API key is not set"),
        [ShowToast "OpenRouter API key is not set. Please configure it in settings." FAILURE])
  else
    let apiKey := default "" (openrouterApiKey (store s)) in
    let prompt := llm_prompt s text targetLang in
    let r := makeOpenRouterTranslateRequest apiKey model prompt in
    let ev := [TranslateRequest apiKey model prompt] in
    if status r =? -1
    then (inl (Error ("Failed to connect to OpenRouter API: " +:+ data r)), ev)
    else if status r =? 401
    then (inl (Error "Invalid OpenRouter API key"), ev)
    else if status r =? 402
    then (inl (Error "OpenRouter API: Insufficient credits"), ev)
    else if status r =? 429
    then (inl (Error "OpenRouter API: Rate limit exceeded. Please try again later."), ev)
    else if negb (status r =? 200)
    then (inl (Error ("OpenRouter API error: " +:+ pretty (status r) +:+ " " +:+ data r)), ev)
    else
      match parse_chat (data r) with
      | None => (inl (Error (syntax_error (data r))), ev)
      | Some resp =>
          match error resp with
          | Some (msg, _) => (inl (Error ("OpenRouter error: " +:+ msg)), ev)
          | None =>
              let translatedText := first_content resp in
              if negb (truthy translatedText)
              then (inl (Error "No translation returned from OpenRouter"), ev)
              else (inr {| tv_sourceLanguage := "LLM";
                           tv_text := trim (default "" translatedText) |}, ev)
          end
      end.

(** [handleRefresh] of the model select in the settings modal: the list
    shown, the [isLoading] flag and the toasts; [fetchModels] as above. *)
Record model_select := ModelSelect {
  models : list OpenRouterModel;
  isLoading : bool;
  toasts : list (string * toast_type)
}.

Definition handleRefresh (s : settings) (c : model_select)
  : model_select * settings * list event :=
  let '(result, s', ev) := fetchModels s in
  match result with
  | inr freshModels =>
      (ModelSelect freshModels false
         (toasts c ++ [("Loaded " +:+ pretty (length freshModels) +:+ " models", SUCCESS)]),
       s', ev)
  | inl e =>
      (ModelSelect (models c) false
         (toasts c ++ [(message_or "Failed to fetch models" e, FAILURE)]),
       s', ev)
  end.

End relay.

End OpenRouter.

(** ** selectionMode.tsx, second part: the translation shown under a message *)
Module TranslationAccessory.

(** The state of one [TranslationAccessory]; a field left out of the
    object literal is [false] or [None]. *)
Record TranslationState := {
  loading : bool;
  translation : option TranslationValue;
  error : option string
}.

Definition blank : TranslationState :=
  {| loading := false; translation := None; error := None |}.

(** [TranslationSetters] maps a message id to the [setState] of the
    accessory mounted for it; calling the setter replaces that accessory's
    state, so the map is kept as message id to current state. *)
Definition call_setter (messageId : string) (v : TranslationState)
    (setters : gmap string TranslationState) : gmap string TranslationState :=
  match setters !! messageId with
  | Some _ => <[messageId := v]> setters
  | None => setters
  end.

Definition startTranslating (messageId : string) (trans : option TranslationValue)
    (setters : gmap string TranslationState) : gmap string TranslationState :=
  call_setter messageId
    {| loading := match trans with Some _ => false | None => true end;
       translation := trans;
       error := None |} setters.

Definition handleTranslate (messageId : string) (data : TranslationValue)
    (setters : gmap string TranslationState) : gmap string TranslationState :=
  call_setter messageId {| loading := false; translation := Some data; error := None |} setters.

Definition handleTranslateError (messageId : string) (error : string)
    (setters : gmap string TranslationState) : gmap string TranslationState :=
  call_setter messageId {| loading := false; translation := None; error := Some error |} setters.

(** The initial state of an accessory: what the cache holds for the message. *)
Definition initial_state (messageId : string) (w : TranslationStore.store)
  : TranslationState :=
  match TranslationStore.get messageId w with
  | Some saved =>
      {| loading := false;
         translation := Some {| tv_text := TranslationStore.text saved;
                                tv_sourceLanguage := TranslationStore.sourceLanguage saved |};
         error := None |}
  | None => blank
  end.

(** Mounting registers the setter unless the message is shown inside a
    link embed ([vencordEmbeddedBy]); unmounting removes it. *)
Definition mount (embedded : bool) (messageId : string) (w : TranslationStore.store)
    (setters : gmap string TranslationState) : gmap string TranslationState :=
  if embedded then setters else <[messageId := initial_state messageId w]> setters.

Definition unmount (embedded : bool) (messageId : string)
    (setters : gmap string TranslationState) : gmap string TranslationState :=
  if embedded then setters else base.delete messageId setters.

(** [dismiss] of a mounted accessory. *)
Definition dismiss (messageId : string)
    (c : gmap string TranslationState * TranslationStore.store)
  : gmap string TranslationState * TranslationStore.store :=
  (call_setter messageId blank (fst c), TranslationStore.delete messageId (snd c)).

(** What the accessory renders. *)
Inductive view :=
| Nothing
| Translating
| Failed (error : string)
| Translated (text sourceLanguage : string).

Definition render (st : TranslationState) : view :=
  if loading st then Translating
  else if truthy (error st) then Failed (default "" (error st))
  else match translation st with
       | None => Nothing
       | Some t => Translated (tv_text t) (tv_sourceLanguage t)
       end.

(** What is on screen under a message: nothing if no accessory is mounted. *)
Definition shown (messageId : string) (setters : gmap string TranslationState) : view :=
  match setters !! messageId with
  | Some st => render st
  | None => Nothing
  end.

End TranslationAccessory.

(** ** index.tsx: the actions on a message *)
Module MessageActions.

Record Embed := {
  type : string;
  rawDescription : option string
}.

(** The fields of a Discord [Message] read here; [snapshot_content] is
    [messageSnapshots?.[0]?.message.content]. *)
Record DiscordMessage := {
  id : string;
  channel_id : string;
  content : string;
  snapshot_content : option string;
  embeds : list Embed
}.

Definition getMessageContent (message : DiscordMessage) : string :=
  if bool_decide (content message ≠ "") then content message
  else if truthy (snapshot_content message) then default "" (snapshot_content message)
  else
    let description :=
      match List.find (λ e, bool_decide (type e = "auto_moderation_message"))
              (embeds message) with
      | Some e => rawDescription e
      | None => None
      end in
    if truthy description then default "" description else "".

Record client := Client {
  selection : SelectionMode.state;
  progress : ProgressBar.state;
  translations : TranslationStore.store;
  accessories : gmap string TranslationAccessory.TranslationState
}.

(** The action of the context-menu item and of the popover button outside
    selection mode.  The provider, the clock and the settings are those of
    [SelectionActionBar.host]; this is the host's call number 0. *)
Definition translateMessage (h : SelectionActionBar.host) (messageId content : string)
    (c : client) : client :=
  let prog := ProgressBar.startProgress (Some 1) (progress c) in
  let acc := TranslationAccessory.startTranslating messageId None (accessories c) in
  match SelectionActionBar.translate h 0 SelectionActionBar.received content with
  | inr trans =>
      Client (selection c) (ProgressBar.endProgress prog)
        (TranslationStore.save (SelectionActionBar.Date_now h 0) messageId trans
           (SelectionActionBar.model_setting h) (translations c))
        (TranslationAccessory.handleTranslate messageId trans acc)
  | inl e =>
      Client (selection c) (ProgressBar.endProgress prog) (translations c)
        (TranslationAccessory.handleTranslateError messageId
           (message_or "Translation failed" e) acc)
  end.

(** [messagePopoverButton.render]: the label, and what a click does. *)
Definition inSelectionModeForChannel (message : DiscordMessage) (c : client) : bool :=
  SelectionMode.isInSelectionMode (selection c)
  && (bool_decide (SelectionMode.getSelectionChannelId (selection c) = None)
      || bool_decide (SelectionMode.getSelectionChannelId (selection c)
                      = Some (channel_id message))).

Definition popover_label (message : DiscordMessage) (c : client) : option string :=
  if bool_decide (getMessageContent message = "") then None
  else if inSelectionModeForChannel message c
  then Some (if SelectionMode.isMessageSelected (id message) (selection c)
             then "Deselect" else "Select")
  else Some "Translate".

Definition popover_click (h : SelectionActionBar.host) (message : DiscordMessage)
    (c : client) : client :=
  if bool_decide (getMessageContent message = "") then c
  else if inSelectionModeForChannel message c
  then Client (SelectionMode.toggleMessageSelection (id message) (channel_id message)
                 (selection c))
         (progress c) (translations c) (accessories c)
  else translateMessage h (id message) (getMessageContent message) c.

End MessageActions.

(** ** index.tsx: the translation of channel names *)
Module ChannelMenu.

(** [names] holds the [name] of the channel objects by channel id,
    [channelTranslations] is the module's map. *)
Record channels := Channels {
  names : gmap string string;
  channelTranslations : gmap string (string * string);
  progress : ProgressBar.state;
  toasts : list (string * toast_type)
}.

Inductive item :=
| NoItem
| RemoveChannelTranslation
| TranslateChannel.

(** [channelCtxPatch]: which item the context menu of a channel gets. *)
Definition menu_item (channelId : string) (s : channels) : item :=
  match names s !! channelId with
  | None => NoItem
  | Some name =>
      if bool_decide (name = "") then NoItem
      else if bool_decide (is_Some (channelTranslations s !! channelId))
      then RemoveChannelTranslation
      else TranslateChannel
  end.

Definition remove_action (channelId : string) (s : channels) : channels :=
  match channelTranslations s !! channelId with
  | Some (original, _) =>
      Channels (<[channelId := original]> (names s))
        (base.delete channelId (channelTranslations s))
        (progress s)
        (toasts s ++ [("Translation removed", SUCCESS)])
  | None => s
  end.

Definition translate_action (h : SelectionActionBar.host) (channelId : string)
    (s : channels) : channels :=
  let prog := ProgressBar.startProgress (Some 1) (progress s) in
  let shown := toasts s ++ [("Translating...", MESSAGE)] in
  let originalName := default "" (names s !! channelId) in
  match SelectionActionBar.translate h 0 SelectionActionBar.received originalName with
  | inr trans =>
      Channels
        (<[channelId := originalName +:+ " [" +:+ tv_text trans +:+ "]"]> (names s))
        (<[channelId := (originalName, tv_text trans)]> (channelTranslations s))
        (ProgressBar.endProgress prog)
        (shown ++ [("Translated: " +:+ tv_text trans, SUCCESS)])
  | inl e =>
      Channels (names s) (channelTranslations s) (ProgressBar.endProgress prog)
        (shown ++ [(message_or "Translation failed" e, FAILURE)])
  end.

(** Choosing the item the menu offers. *)
Definition choose (h : SelectionActionBar.host) (channelId : string) (s : channels)
  : channels :=
  match menu_item channelId s with
  | NoItem => s
  | RemoveChannelTranslation => remove_action channelId s
  | TranslateChannel => translate_action h channelId s
  end.

End ChannelMenu.

(** ** The history tab of the settings modal *)
Module HistoryTab.

Record tab := Tab {
  history : list (string * TranslationStore.SavedTranslation);
  store : TranslationStore.store;
  toasts : list (string * toast_type)
}.

(** The effect run on mount: [TranslationStore.getAll().then(setHistory)]. *)
Definition opened (w : TranslationStore.store) : tab :=
  let '(all, w) := TranslationStore.getAll w in Tab all w [].

Definition handleDelete (messageId : string) (t : tab) : tab :=
  Tab (List.filter (λ e, bool_decide (fst e ≠ messageId)) (history t))
      (TranslationStore.delete messageId (store t))
      (toasts t ++ [("Translation removed", SUCCESS)]).

Definition handleClearAll (t : tab) : tab :=
  Tab [] (TranslationStore.clearAll (store t))
      (toasts t ++ [("Translation history cleared", SUCCESS)]).

Inductive action :=
| DeleteRow (messageId : string)
| ClearAll.

Definition act (t : tab) (a : action) : tab :=
  match a with
  | DeleteRow messageId => handleDelete messageId t
  | ClearAll => handleClearAll t
  end.

(** What the tab lists is what the cache holds, once hydrated, without
    repetition and newest first. *)
Definition consistent (t : tab) : Prop :=
  TranslationStore._loaded (store t) = true
  ∧ NoDup (history t)
  ∧ (∀ i s, (i, s) ∈ history t ↔ TranslationStore._cache (store t) !! i = Some s)
  ∧ StronglySorted TranslationStore.not_older (history t).

(** [formatRelativeTime]; [now] is [Date.now()], and [toLocaleDateString]
    stands for [new Date(timestamp).toLocaleDateString()]. *)
Definition formatRelativeTime (toLocaleDateString : Z → string) (now timestamp : Z)
  : string :=
  let seconds := (now - timestamp) / 1000 in
  if seconds <? 60 then "just now"
  else
    let minutes := seconds / 60 in
    if minutes <? 60 then pretty minutes +:+ "m ago"
    else
      let hours := minutes / 60 in
      if hours <? 24 then pretty hours +:+ "h ago"
      else
        let days := hours / 24 in
        if days <? 30 then pretty days +:+ "d ago"
        else toLocaleDateString timestamp.

End HistoryTab.

(** ** Reading a batch as calls of the progress tracker *)
Module BatchProgress.

Definition progress_call (e : SelectionActionBar.event) : option ProgressBar.call :=
  match e with
  | SelectionActionBar.StartProgress total => Some (ProgressBar.CStart (Some total))
  | SelectionActionBar.UpdateProgress current => Some (ProgressBar.CUpdate (Some current))
  | SelectionActionBar.EndProgress => Some ProgressBar.CEnd
  | _ => None
  end.

Definition progress_calls (es : list SelectionActionBar.event) : list ProgressBar.call :=
  omap progress_call es.

(** [update(first)], [update(first + 1)], ... : [k] calls. *)
Definition updates (first k : nat) : list ProgressBar.call :=
  map (λ j, ProgressBar.CUpdate (Some (Z.of_nat j))) (seq first k).

(** The condition under which [SelectionActionBar] renders its bar:
    [!isSelectionMode || selectedCount === 0] gives [null]. *)
Definition bar_shown (s : SelectionMode.state) : bool :=
  SelectionMode._isSelectionMode s
  && negb (SelectionMode.getSelectedCount s =? 0)%nat.

(** The entry a batch saves for the item numbered [j]. *)
Definition saved_entry (h : SelectionActionBar.host) (j : nat) (trans : TranslationValue)
  : TranslationStore.SavedTranslation :=
  {| TranslationStore.text := tv_text trans;
     TranslationStore.sourceLanguage := tv_sourceLanguage trans;
     TranslationStore.model := SelectionActionBar.model_setting h;
     TranslationStore.timestamp := SelectionActionBar.Date_now h j |}.

End BatchProgress.

(** ** Concrete inputs used below *)
Module Examples.
Import SelectionActionBar.

Definition msg (i text : string) : Message := {| id := i; content := text |}.


Definition english (text : string) : TranslationValue :=
  {| tv_text := text; tv_sourceLanguage := "es" |}.


(** A provider that always answers, over a channel of two messages. *)
Definition two_messages : list Message := [msg "1" "hola"; msg "2" "mundo"].

Definition always_answers : host :=
  {| getMessages := λ _, two_messages;
     translate := λ _ _ text, inr (english text);
     Date_now := λ n, 1700000000000 + Z.of_nat n;
     service := "google";
     openrouterModel := None |}.

Definition app_with (sel : SelectionMode.state) : app :=
  App sel ProgressBar.initial (TranslationStore.fresh None) false [].


(** The newer message selected before the older one. *)
Definition newer_selected_first : app :=
  app_with (SelectionMode.run
              [SelectionMode.Toggle;
               SelectionMode.Select "2" "c"; SelectionMode.Select "1" "c"]).

Definition old_entry : TranslationStore.SavedTranslation :=
  {| TranslationStore.text := "hello"; TranslationStore.sourceLanguage := "fr";
     TranslationStore.model := None; TranslationStore.timestamp := 10 |}.
Definition entry_a : TranslationValue := {| tv_text := "one"; tv_sourceLanguage := "de" |}.
Definition entry_b : TranslationValue := {| tv_text := "two"; tv_sourceLanguage := "es" |}.

(** A relay that is offline, and one whose model replies to a batch of
    three texts with an array of two strings inside a code fence. *)
Definition offline : string → OpenRouter.response :=
  λ _, {| OpenRouter.status := -1; OpenRouter.data := "offline" |}.

Definition quote : string := String "034"%char EmptyString.

Definition two_strings : string :=
  "[" +:+ quote +:+ " one" +:+ quote +:+ ", " +:+ quote +:+ "two " +:+ quote +:+ "]".

Definition fenced_reply : string :=
  "```json" +:+ OpenRouter.nl +:+ two_strings +:+ OpenRouter.nl +:+ "```".

Definition replies_with_two : string → string → string → OpenRouter.response :=
  λ _ _ _, {| OpenRouter.status := 200; OpenRouter.data := "body" |}.

Definition parse_chat_two : string → option OpenRouter.OpenRouterChatResponse :=
  λ _, Some {| OpenRouter.choices :=
                 Some [{| OpenRouter.message :=
                            Some {| OpenRouter.content := Some fenced_reply |} |}];
               OpenRouter.error := None |}.

Definition parse_strings_two : string → option (list string) :=
  λ s, if bool_decide (s = two_strings) then Some [" one"; "two "] else None.

Definition no_trim : string → string := λ s, s.
Definition no_message : string → string := λ _, "Unexpected token".
Definition no_stringify : list string → string := λ _, "[]".

Definition key_set : OpenRouter.settings :=
  OpenRouter.Settings (Some "sk-or-1") OpenRouter.Unset None.

Definition key_set_cache_empty : OpenRouter.settings :=
  OpenRouter.Settings (Some "sk-or-1") OpenRouter.Unset (Some []).

Definition cache_filled : OpenRouter.settings :=
  OpenRouter.Settings None OpenRouter.Unset
    (Some [{| OpenRouter.id := "openai/gpt-4o-mini"; OpenRouter.name := "GPT-4o mini";
              OpenRouter.pricing := None |}]).

Definition by_length (a b : string) : Z :=
  Z.of_nat (String.length a) - Z.of_nat (String.length b).

Definition no_models : string → option (list OpenRouter.OpenRouterModel) := λ _, None.
End Examples.

(** ** More concrete inputs *)
Module Scenarios.

(** A hydrated, empty store with a save and a [getAll] about to run. *)
Definition hydrated : TranslationStore.store :=
  TranslationStore.load (TranslationStore.fresh None).

Definition two_calls : list TranslationStore.task :=
  [TranslationStore.Called (TranslationStore.CallSave 5 "1" Examples.entry_a None);
   TranslationStore.Called TranslationStore.CallGetAll].

Definition one_selected : list SelectionMode.call :=
  [SelectionMode.Toggle; SelectionMode.Select "1" "c"].

Definition newer_first : list SelectionMode.call :=
  [SelectionMode.Toggle; SelectionMode.Select "2" "c"; SelectionMode.Select "1" "c"].


(** A channel whose only message has no text, that message selected. *)
Definition silent_channel : SelectionActionBar.host :=
  {| SelectionActionBar.getMessages := λ _, [Examples.msg "1" ""];
     SelectionActionBar.translate := λ _ _ text, inr (Examples.english text);
     SelectionActionBar.Date_now := λ n, 1700000000000 + Z.of_nat n;
     SelectionActionBar.service := "google";
     SelectionActionBar.openrouterModel := None |}.

Definition silent_selected : SelectionActionBar.app :=
  Examples.app_with (SelectionMode.run one_selected).

(** A client with the accessory of message "1" mounted. *)
Definition one_mounted : MessageActions.client :=
  MessageActions.Client (SelectionMode.run one_selected) ProgressBar.initial
    (TranslationStore.fresh None) {[ "1" := TranslationAccessory.blank ]}.

Definition message_two : MessageActions.DiscordMessage :=
  {| MessageActions.id := "2"; MessageActions.channel_id := "d";
     MessageActions.content := "hola"; MessageActions.snapshot_content := None;
     MessageActions.embeds := [] |}.

Definition one_channel : ChannelMenu.channels :=
  ChannelMenu.Channels {[ "c" := "general" ]} ∅ ProgressBar.initial [].

(** A relay that lists two models. *)
Definition gpt : OpenRouter.OpenRouterModel :=
  {| OpenRouter.id := "openai/gpt-4o-mini"; OpenRouter.name := "GPT-4o mini";
     OpenRouter.pricing := Some ("0.15", "0.6") |}.
Definition claude : OpenRouter.OpenRouterModel :=
  {| OpenRouter.id := "anthropic/claude-3-haiku"; OpenRouter.name := "Claude 3 Haiku";
     OpenRouter.pricing := None |}.

Definition lists_two : string → OpenRouter.response :=
  λ _, {| OpenRouter.status := 200; OpenRouter.data := "body" |}.

Definition parse_two_models : string → option (list OpenRouter.OpenRouterModel) :=
  λ _, Some [gpt; claude].

End Scenarios.

(** * Properties *)

(** ** Sorting with a comparator *)
Section js_sort_facts.
Context {A : Type} (cmp : A → A → Z).

Lemma sort_insert_perm x l : sort_insert cmp x l ≡ₚ x :: l.
Proof.
  induction l as [|y l IH]; simpl; [done|].
  destruct (cmp x y <=? 0); [done|].
  rewrite IH. apply perm_swap.
Qed.

Lemma js_sort_perm l : js_sort cmp l ≡ₚ l.
Proof.
  induction l as [|x l IH]; simpl; [done|].
  by rewrite sort_insert_perm, IH.
Qed.

Lemma js_sort_length l : length (js_sort cmp l) = length l.
Proof. by rewrite js_sort_perm. Qed.

(** A comparator that never calls both orders of a pair wrong. *)
Hypothesis cmp_total : ∀ x y, 0 < cmp x y → cmp y x ≤ 0.

Let before (x y : A) : Prop := cmp x y ≤ 0.

Lemma sort_insert_hd x y l :
  before y x → HdRel before y l → HdRel before y (sort_insert cmp x l).
Proof.
  intros Hyx Hl. destruct l as [|z l]; simpl; [by constructor|].
  destruct (cmp x z <=? 0); constructor; [done|].
  by inversion Hl.
Qed.

Lemma sort_insert_sorted x l :
  Sorted before l → Sorted before (sort_insert cmp x l).
Proof.
  induction 1 as [|y l Hl IH Hhd]; simpl.
  - repeat constructor.
  - destruct (cmp x y <=? 0) eqn:E.
    + apply Z.leb_le in E. repeat constructor; done.
    + apply Z.leb_gt in E. constructor; [done|].
      apply sort_insert_hd; [|done]. by apply cmp_total.
Qed.

Lemma js_sort_sorted l : Sorted (λ x y, cmp x y ≤ 0) (js_sort cmp l).
Proof.
  induction l as [|x l IH]; simpl; [constructor|].
  by apply sort_insert_sorted.
Qed.
End js_sort_facts.

(** ** The result cache *)
Section store_facts.
Import TranslationStore.

Lemma ensureLoaded_cache w : _cache (ensureLoaded w) = contents w.
Proof. unfold ensureLoaded, contents. by destruct (_loaded w). Qed.

Lemma ensureLoaded_loaded w : _loaded (ensureLoaded w) = true.
Proof. unfold ensureLoaded. by destruct (_loaded w) eqn:E. Qed.

Lemma ensureLoaded_contents w : contents (ensureLoaded w) = contents w.
Proof.
  unfold contents at 1. by rewrite ensureLoaded_loaded, ensureLoaded_cache.
Qed.

Lemma serve_contents w r : contents (serve w r) = net_effect (contents w) r.
Proof.
  destruct r as [now i res mo|i|]; simpl.
  - unfold save, contents at 1; simpl.
    by rewrite ensureLoaded_loaded, ensureLoaded_cache.
  - unfold delete, contents at 1; simpl.
    by rewrite ensureLoaded_loaded, ensureLoaded_cache.
  - unfold clearAll, contents; simpl. by destruct (_loaded w).
Qed.

Lemma serve_all_contents rs w :
  contents (serve_all rs w) = foldl net_effect (contents w) rs.
Proof.
  revert w. induction rs as [|r rs IH]; intros w; simpl; [done|].
  unfold serve_all in *; simpl. by rewrite IH, serve_contents.
Qed.

Lemma newest_first_total x y : 0 < newest_first x y → newest_first y x ≤ 0.
Proof. unfold newest_first. lia. Qed.

Lemma not_older_trans : Relations_1.Transitive not_older.
Proof. intros x y z. unfold not_older. lia. Qed.

Lemma entries_sorted_newest_first w : StronglySorted not_older (entries_sorted w).
Proof.
  apply Sorted_StronglySorted; [apply not_older_trans|].
  unfold entries_sorted.
  eapply Sorted_ind with (P := Sorted not_older);
    [| |apply (js_sort_sorted newest_first newest_first_total)].
  - constructor.
  - intros x l _ IH Hhd. constructor; [done|].
    destruct Hhd; constructor. unfold not_older, newest_first in *. lia.
Qed.
End store_facts.

Section store_claims.
Import TranslationStore.

(** C5.  After any sequence of [save] / [delete] / [clearAll] requests,
    each awaited before the next, [getAll()] returns exactly the entries
    of the mapping that results from applying the requests' net effects
    to what the store held, and returns them newest first (timestamps in
    descending order). *)
Theorem getAll_net_effect_newest_first (rs : list request) (w : store) :
  let result := fst (getAll (serve_all rs w)) in
  let expected := foldl net_effect (contents w) rs in
  result ≡ₚ map_to_list expected
  ∧ (∀ i s, (i, s) ∈ result ↔ expected !! i = Some s)
  ∧ StronglySorted not_older result.
Proof.
  simpl. unfold getAll; simpl.
  assert (Hc : _cache (ensureLoaded (serve_all rs w))
               = foldl net_effect (contents w) rs)
    by (by rewrite ensureLoaded_cache, serve_all_contents).
  assert (Hp : entries_sorted (ensureLoaded (serve_all rs w))
               ≡ₚ map_to_list (foldl net_effect (contents w) rs)).
  { unfold entries_sorted. by rewrite js_sort_perm, Hc. }
  split; [done|]. split.
  - intros i s. by rewrite Hp, elem_of_map_to_list.
  - apply entries_sorted_newest_first.
Qed.

(** C4.  [save(id, result)] followed by [get(id)] gives a saved
    translation with the text and source language that were saved and
    with the clock reading taken by [save] as its timestamp; as the clock
    does not run backwards, that reading lies between the reading at the
    call of [save] and the reading at the call of [get].  After
    [delete(id)], [get(id)] gives nothing. *)
Theorem save_get_delete_roundtrip
    (w : store) (messageId : string) (result : TranslationValue)
    (model : option string) (t_save now t_get : Z) :
  t_save ≤ now ≤ t_get →
  let w1 := save now messageId result model w in
  (∃ s, get messageId w1 = Some s
        ∧ text s = tv_text result
        ∧ sourceLanguage s = tv_sourceLanguage result
        ∧ timestamp s = now
        ∧ t_save ≤ timestamp s ≤ t_get)
  ∧ get messageId (delete messageId w1) = None.
Proof.
  intros Hclock w1. split.
  - eexists. unfold w1, get, save; simpl.
    rewrite lookup_insert_eq. split; [reflexivity|]. simpl.
    repeat split; try done; lia.
  - unfold get, delete; simpl. apply lookup_delete_eq.
Qed.

Lemma save_get_delete_roundtrip_witness :
  let w1 := save 1700000000500 "1001" {| tv_text := "bonjour"; tv_sourceLanguage := "fr" |}
              None (fresh None) in
  (∃ s, get "1001" w1 = Some s
        ∧ text s = "bonjour"
        ∧ sourceLanguage s = "fr"
        ∧ timestamp s = 1700000000500
        ∧ 1700000000000 ≤ timestamp s ≤ 1700000001000)
  ∧ get "1001" (delete "1001" w1) = None.
Proof.
  apply (save_get_delete_roundtrip (fresh None) "1001"
           {| tv_text := "bonjour"; tv_sourceLanguage := "fr" |} None
           1700000000000 1700000000500 1700000001000).
  lia.
Defined.

(** *** Calls in flight together *)

(** A call made alone and left to finish does what the sequential
    definitions say. *)
Lemma complete_save now i r mo w :
  complete (Called (CallSave now i r mo)) w = (Returned None, save now i r mo w).
Proof.
  unfold complete, run_schedule, step, save, ensureLoaded; simpl.
  destruct (_loaded w); reflexivity.
Qed.

Lemma complete_delete i w :
  complete (Called (CallDelete i)) w = (Returned None, delete i w).
Proof.
  unfold complete, run_schedule, step, delete, ensureLoaded; simpl.
  destruct (_loaded w); reflexivity.
Qed.

Lemma complete_clearAll w :
  complete (Called CallClearAll) w = (Returned None, clearAll w).
Proof. reflexivity. Qed.

Lemma complete_getAll w :
  complete (Called CallGetAll) w = (Returned (Some (fst (getAll w))), snd (getAll w)).
Proof.
  unfold complete, run_schedule, step, getAll, ensureLoaded; simpl.
  destruct (_loaded w); reflexivity.
Qed.

Lemma complete_load w :
  complete (Called CallLoad) w = (Returned None, load w).
Proof.
  unfold complete, run_schedule, step, load, ensureLoaded; simpl.
  destruct (_loaded w); reflexivity.
Qed.

Import Examples.

(** C3, on the code.  Two [save] calls are made before the first
    hydration has finished: both find [_loaded] false and both ask the
    key-value store for the mapping.  The second answer, read before the
    first call wrote, then replaces the cache, and the second write
    replaces the persisted mapping: the entry saved first is lost. *)
Theorem two_saves_before_hydration_load_twice :
  let start := ([Called (CallSave 20 "a" entry_a None);
                 Called (CallSave 21 "b" entry_b None)],
                fresh (Some {[ "old" := old_entry ]})) in
  let finish := run_schedule [0; 1; 0; 0; 1; 1; 0; 1]%nat start in
  fst finish = [Returned None; Returned None]
  ∧ loads (snd finish) = 2%nat
  ∧ get "a" (snd finish) = None
  ∧ (persisted (snd finish) ≫= (.!! "a")) = None
  ∧ is_Some (persisted (snd finish) ≫= (.!! "b"))
  ∧ is_Some (foldl net_effect {[ "old" := old_entry ]}
               [ReqSave 20 "a" entry_a None; ReqSave 21 "b" entry_b None] !! "a").
Proof.
  simpl. unfold run_schedule, step, get, loads; simpl.
  repeat split.
  - rewrite lookup_insert_eq. by eexists.
  - rewrite lookup_insert_ne by done. rewrite lookup_insert_eq. by eexists.
Qed.
End store_claims.

(** ** The progress tracker *)
Section progress_claims.
Import ProgressBar.

Lemma apply_within_total s c :
  invariant s → within_total s c → invariant (apply s c).
Proof.
  unfold invariant. destruct c as [total|[p|]| |]; simpl; intros Hs Hc.
  - lia.
  - done.
  - lia.
  - done.
  - destruct (timers s); simpl; [done|lia].
Qed.

(** C6, as the code has it.  The tracker does not clamp: [start], [end]
    and the deferred reset keep [0 <= current <= total] (for [total > 0]),
    and so does every sequence of calls in which each explicit position
    passed to [update] lies in [0, total] and each increment is made
    while [current < total].  [update()] adds one to [current],
    [update(p)] sets it to [p]; with [total = 0] the bar is shown
    indeterminate. *)
Theorem progress_invariant_within_total (cs : list call) (s : state) :
  invariant s →
  all_within_total s cs →
  invariant (run cs s)
  ∧ (∀ s', _current (updateProgress None s') = _current s' + 1)
  ∧ (∀ s' p, _current (updateProgress (Some p) s') = p)
  ∧ (∀ s', _total s' = 0 → showDeterminate s' = false).
Proof.
  intros Hs Hcs. split; [|split; [done|split; [done|]]].
  - revert s Hs Hcs. induction cs as [|c cs IH]; intros s Hs Hcs; [done|].
    destruct Hcs as [Hc Hcs]. apply IH; [|done].
    by apply apply_within_total.
  - intros s' H0. unfold showDeterminate. by rewrite H0.
Qed.

Lemma progress_invariant_within_total_witness :
  invariant (run [CStart (Some 2); CUpdate (Some 1); CUpdate None; CEnd; CTimeout] initial)
  ∧ (∀ s', _current (updateProgress None s') = _current s' + 1)
  ∧ (∀ s' p, _current (updateProgress (Some p) s') = p)
  ∧ (∀ s', _total s' = 0 → showDeterminate s' = false).
Proof.
  apply (progress_invariant_within_total
           [CStart (Some 2); CUpdate (Some 1); CUpdate None; CEnd; CTimeout] initial).
  - unfold invariant; simpl; lia.
  - simpl. repeat split; lia.
Defined.

(** C6, as stated, fails: after [start(1)], two increments leave
    [current = 2] above [total = 1]. *)
Lemma progress_invariant_not_preserved :
  invariant initial
  ∧ ¬ invariant (run [CStart (Some 1); CUpdate None; CUpdate None] initial).
Proof.
  split.
  - unfold invariant; simpl; lia.
  - unfold invariant; simpl; lia.
Qed.
End progress_claims.

(** ** The selection state machine *)
Section selection_claims.
Import SelectionMode.

Lemma run_snoc cs c : run (cs ++ [c]) = apply (run cs) c.
Proof. unfold run. by rewrite foldl_app. Qed.

Lemma selected_in_snoc i cs c :
  selected_in i (cs ++ [c]) =
    match c with
    | Select m ch => if bool_decide (m = i) then Some ch else selected_in i cs
    | _ => selected_in i cs
    end.
Proof.
  induction cs as [|c' cs IH]; simpl.
  - destruct c as [| |m ch]; try done; by destruct (bool_decide (m = i)).
  - rewrite IH. destruct c as [| |m ch]; try done;
      by destruct (bool_decide (m = i)).
Qed.

Lemma set_has_true x l : set_has x l = true ↔ x ∈ l.
Proof. unfold set_has. by rewrite bool_decide_eq_true. Qed.

Lemma elem_of_set_delete y x l : y ∈ set_delete x l ↔ y ∈ l ∧ y ≠ x.
Proof.
  unfold set_delete. rewrite !list_elem_of_In, filter_In, bool_decide_eq_true.
  done.
Qed.

Lemma elem_of_set_add y x l : y ∈ set_add x l ↔ y ∈ l ∨ y = x.
Proof.
  unfold set_add. destruct (set_has x l) eqn:E.
  - apply set_has_true in E. split; [by left|]. by intros [?| ->].
  - rewrite elem_of_app, list_elem_of_singleton. done.
Qed.

(** Outside selection mode nothing is selected and no channel is bound. *)
Lemma off_is_empty cs :
  _isSelectionMode (run cs) = false →
  _selectedIds (run cs) = [] ∧ _currentChannelId (run cs) = None.
Proof.
  induction cs as [|c cs IH] using rev_ind; [done|].
  rewrite run_snoc. destruct c as [| |m ch]; simpl.
  - unfold toggleSelectionMode.
    destruct (_isSelectionMode (run cs)); simpl; intros; by try split.
  - done.
  - unfold toggleMessageSelection.
    destruct (_isSelectionMode (run cs)) eqn:E; simpl; [|by intros; apply IH].
    destruct (negb (truthy _)); [done|]. by destruct (bool_decide _).
Qed.

(** Once a call in selection mode has selected in a channel, further
    selects in that channel leave mode and channel as they are. *)
Lemma select_binds m ch s :
  _isSelectionMode s = true →
  _isSelectionMode (toggleMessageSelection m ch s) = true
  ∧ _currentChannelId (toggleMessageSelection m ch s) = Some ch.
Proof.
  intros Hon. unfold toggleMessageSelection. rewrite Hon; simpl.
  destruct (negb (truthy _)); [done|].
  destruct (bool_decide _) eqn:E; [done|].
  apply bool_decide_eq_false in E. split; [done|]. simpl.
  by destruct (decide (_currentChannelId s = Some ch)).
Qed.

Lemma selects_keep_channel ch post s :
  _isSelectionMode s = true →
  _currentChannelId s = Some ch →
  Forall (λ c, channel_of c = Some ch) post →
  _isSelectionMode (foldl apply s post) = true
  ∧ _currentChannelId (foldl apply s post) = Some ch.
Proof.
  intros Hon Hch Hpost. revert s Hon Hch.
  induction Hpost as [|c post Hc _ IH]; intros s Hon Hch; [done|].
  simpl. destruct c as [| |m ch']; simpl in Hc; try done.
  injection Hc as ->.
  destruct (select_binds m ch s Hon) as [? ?]. by apply IH.
Qed.

Lemma select_on m ch s :
  _isSelectionMode s = true →
  _selectedIds (toggleMessageSelection m ch s) = flipped m (kept_ids ch s)
  ∧ _currentChannelId (toggleMessageSelection m ch s) = Some ch.
Proof.
  intros Hon. split; [|by apply select_binds].
  unfold toggleMessageSelection, kept_ids, flipped. rewrite Hon; simpl.
  destruct (truthy (_currentChannelId s)); simpl; [|done].
  destruct (decide (_currentChannelId s = Some ch)) as [E|E].
  - rewrite (bool_decide_eq_true_2 _ E).
    rewrite bool_decide_eq_false_2 by (by intros ?). done.
  - rewrite (bool_decide_eq_false_2 _ E).
    rewrite bool_decide_eq_true_2 by done. done.
Qed.

Lemma elem_of_flipped i m ids :
  i ∈ flipped m ids → i = m ∨ (i ∈ ids ∧ i ≠ m).
Proof.
  unfold flipped. destruct (set_has m ids).
  - rewrite elem_of_set_delete. by right.
  - rewrite elem_of_set_add. intros [?| ->]; [|by left].
    destruct (decide (i = m)); [by left|by right].
Qed.

(** With non-empty channel ids, every selected id was last selected in
    the bound channel. *)
Lemma selected_in_bound_channel cs :
  Forall (λ c, channel_of c ≠ Some "") cs →
  (∀ ch, _currentChannelId (run cs) = Some ch → ch ≠ "")
  ∧ (∀ i, i ∈ _selectedIds (run cs) →
          ∃ ch, _currentChannelId (run cs) = Some ch ∧ selected_in i cs = Some ch).
Proof.
  induction cs as [|c cs IH] using rev_ind; intros Hne.
  { split; [done|]. intros i Hi. by apply elem_of_nil in Hi. }
  apply Forall_app in Hne as [Hcs Hc]. rewrite Forall_singleton in Hc.
  destruct (IH Hcs) as [IH1 IH2]. clear IH.
  rewrite run_snoc. destruct c as [| |m ch]; simpl.
  - unfold toggleSelectionMode.
    destruct (_isSelectionMode (run cs)) eqn:Hon; simpl.
    + split; [done|]. intros i Hi. by apply elem_of_nil in Hi.
    + destruct (off_is_empty cs Hon) as [-> ->].
      split; [done|]. intros i Hi. by apply elem_of_nil in Hi.
  - split; [done|]. intros i Hi. by apply elem_of_nil in Hi.
  - destruct (_isSelectionMode (run cs)) eqn:Hon.
    2:{ unfold toggleMessageSelection. rewrite Hon; simpl.
        destruct (off_is_empty cs Hon) as [E1 E2]. rewrite E1, E2.
        split; [done|]. intros i Hi. by apply elem_of_nil in Hi. }
    destruct (select_on m ch (run cs) Hon) as [-> ->].
    split.
    { intros ch' [= <-] E. apply Hc. simpl. by rewrite E. }
    intros i Hi. exists ch. split; [done|].
    rewrite selected_in_snoc.
    apply elem_of_flipped in Hi as [->|[Hi Him]].
    { by rewrite bool_decide_eq_true_2. }
    rewrite bool_decide_eq_false_2 by done.
    unfold kept_ids in Hi.
    destruct (_currentChannelId (run cs)) as [c0|] eqn:Hcur; simpl in Hi.
    + rewrite bool_decide_eq_true_2 in Hi by (by apply IH1).
      destruct (bool_decide (Some c0 = Some ch)) eqn:E.
      * apply bool_decide_eq_true in E as [= ->].
        destruct (IH2 i Hi) as (ch' & [= <-] & ?). done.
      * by apply elem_of_nil in Hi.
    + destruct (IH2 i Hi) as (ch' & ? & ?). done.
Qed.

(** C2, as the code has it.  For every sequence of toggle / exit / select
    calls whose channel arguments are non-empty strings:
    the bound channel is [ch] exactly when a select in channel [ch] was
    made in selection mode and only selects in [ch] came after it (no
    mode reset, no channel switch); every selected id was last selected
    in the bound channel; a select in another channel than the bound one
    leaves only its own message selected and binds its channel; a select
    outside selection mode changes nothing. *)
Theorem selection_channel_invariant (cs : list call) :
  Forall (λ c, channel_of c ≠ Some "") cs →
  let s := run cs in
  (∀ ch, _currentChannelId s = Some ch ↔
         ∃ pre m post, cs = pre ++ Select m ch :: post
                       ∧ _isSelectionMode (run pre) = true
                       ∧ Forall (λ c, channel_of c = Some ch) post)
  ∧ (∀ i, i ∈ _selectedIds s →
          selected_in i cs = _currentChannelId s ∧ is_Some (_currentChannelId s))
  ∧ (∀ m ch bound, _isSelectionMode s = true →
                   _currentChannelId s = Some bound → ch ≠ bound →
                   _selectedIds (toggleMessageSelection m ch s) = [m]
                   ∧ _currentChannelId (toggleMessageSelection m ch s) = Some ch)
  ∧ (∀ m ch, _isSelectionMode s = false → toggleMessageSelection m ch s = s).
Proof.
  intros Hne s. destruct (selected_in_bound_channel cs Hne) as [H1 H2].
  subst s. split; [|split; [|split]].
  - intros ch. split.
    + clear. destruct cs as [|c cs _] using rev_ind; [done|].
      rewrite run_snoc. destruct c as [| |m ch']; simpl.
      * unfold toggleSelectionMode.
        destruct (_isSelectionMode (run cs)) eqn:Hon; simpl; [done|].
        destruct (off_is_empty cs Hon) as [_ ->]. done.
      * done.
      * destruct (_isSelectionMode (run cs)) eqn:Hon.
        -- destruct (select_on m ch' (run cs) Hon) as [_ ->].
           intros [= ->]. exists cs, m, []. by repeat split.
        -- unfold toggleMessageSelection. rewrite Hon; simpl.
           destruct (off_is_empty cs Hon) as [_ ->]. done.
    + intros (pre & m & post & -> & Hon & Hpost).
      unfold run. rewrite foldl_app. simpl.
      destruct (select_binds m ch (foldl apply initial pre) Hon) as [? ?].
      by apply selects_keep_channel.
  - intros i Hi. destruct (H2 i Hi) as (ch & -> & ->). by split.
  - intros m ch bound Hon Hb Hdiff.
    destruct (select_on m ch (run cs) Hon) as [-> ->]. split; [|done].
    unfold kept_ids. rewrite Hb; simpl.
    rewrite bool_decide_eq_true_2 by (by apply H1).
    rewrite bool_decide_eq_false_2 by congruence. done.
  - intros m ch Hoff. unfold toggleMessageSelection. by rewrite Hoff.
Qed.

Lemma selection_channel_invariant_witness :
  let cs := [Toggle; Select "m1" "c1"; Select "m2" "c1"; Select "m3" "c2"] in
  let s := run cs in
  (∀ ch, _currentChannelId s = Some ch ↔
         ∃ pre m post, cs = pre ++ Select m ch :: post
                       ∧ _isSelectionMode (run pre) = true
                       ∧ Forall (λ c, channel_of c = Some ch) post)
  ∧ (∀ i, i ∈ _selectedIds s →
          selected_in i cs = _currentChannelId s ∧ is_Some (_currentChannelId s))
  ∧ (∀ m ch bound, _isSelectionMode s = true →
                   _currentChannelId s = Some bound → ch ≠ bound →
                   _selectedIds (toggleMessageSelection m ch s) = [m]
                   ∧ _currentChannelId (toggleMessageSelection m ch s) = Some ch)
  ∧ (∀ m ch, _isSelectionMode s = false → toggleMessageSelection m ch s = s).
Proof.
  apply (selection_channel_invariant
           [Toggle; Select "m1" "c1"; Select "m2" "c1"; Select "m3" "c2"]).
  repeat constructor; simpl; discriminate.
Defined.

(** C2, as stated, fails for an empty channel id: a channel bound to the
    empty string counts as not bound, so the next select, in channel
    "c2", binds "c2" without clearing the set, which then holds "m1",
    selected in another channel. *)
Lemma selection_mixes_channels_after_empty_channel :
  let before := [Toggle; Select "m1" ""] in
  let cs := before ++ [Select "m2" "c2"] in
  _currentChannelId (run before) = Some ""
  ∧ _selectedIds (run cs) = ["m1"; "m2"]
  ∧ _currentChannelId (run cs) = Some "c2"
  ∧ selected_in "m1" cs = Some ""
  ∧ ¬ (∀ i, i ∈ _selectedIds (run cs) → selected_in i cs = _currentChannelId (run cs)).
Proof.
  simpl. repeat split; try reflexivity.
  intros H. specialize (H "m1"). 
  assert (Hin : "m1" ∈ _selectedIds (run [Toggle; Select "m1" ""; Select "m2" "c2"]))
    by (vm_compute; apply list_elem_of_here).
  specialize (H Hin). vm_compute in H. discriminate.
Qed.
End selection_claims.

(** ** The batch orchestrator *)
Section batch_facts.
Import SelectionActionBar.
Variable h : host.





(** Whatever the provider does, the loop touches neither the selection
    nor [isTranslating], and ends no progress. *)
Lemma translate_from_frame msgs i a :
  let r := translate_from h i msgs a in
  selection (snd r) = selection a
  ∧ isTranslating (snd r) = isTranslating a
  ∧ ProgressBar.timers (progress (snd r)) = ProgressBar.timers (progress a)
  ∧ ∃ new, events (snd r) = events a ++ new ∧ List.filter is_end new = [].
Proof.
  revert i a. induction msgs as [|msg msgs IH]; intros i a; simpl.
  - repeat split; try done. exists []. by rewrite app_nil_r.
  - destruct (translate h i received (content msg)) as [e|trans]; simpl.
    + repeat split; try done. by exists [Translate received (content msg)].
    + destruct (IH (S i) (translated h i msg trans
                          (emit (Translate received (content msg)) a)))
        as (-> & -> & -> & new & -> & Hnew).
      repeat split; try done. simpl.
      exists (item_trace (model_setting h) i msg trans ++ new).
      split; [by rewrite <- !app_assoc|]. simpl. done.
Qed.





Lemma filter_end_batch_trace model i items :
  List.filter is_end (batch_trace model i items) = [].
Proof.
  revert i. induction items as [|[msg trans] items IH]; intros i; simpl; [done|].
  by rewrite IH.
Qed.

End batch_facts.

Section batch_claims.
Import SelectionActionBar.

Lemma handle_guarded h a ch :
  SelectionMode._currentChannelId (selection a) = Some ch →
  ch ≠ "" →
  SelectionMode._selectedIds (selection a) ≠ [] →
  handleTranslateSelected h a =
    let selected := selectedMessages h ch a in
    let r := translate_from h 0 selected
               (startProgress (Z.of_nat (length selected)) (setIsTranslating true a)) in
    exitSelectionMode
      (setIsTranslating false
         (endProgress (emit (closing_toast (length selected) (fst r)) (snd r)))).
Proof.
  intros Hch Hne Hsel. unfold handleTranslateSelected. rewrite Hch.
  rewrite bool_decide_eq_false_2 by done. simpl.
  unfold SelectionMode.getSelectedCount.
  destruct (SelectionMode._selectedIds (selection a)) eqn:E; [done|]. simpl.
  change (selectedMessages h ch (setIsTranslating true a))
    with (selectedMessages h ch a).
  destruct (translate_from h 0 _ _) as [[e|] a']; reflexivity.
Qed.






Lemma elem_of_selectedMessages h ch a m :
  m ∈ selectedMessages h ch a ↔
    m ∈ getMessages h ch
    ∧ id m ∈ SelectionMode._selectedIds (selection a)
    ∧ content m ≠ "".
Proof.
  unfold selectedMessages.
  rewrite !list_elem_of_In, filter_In, andb_true_iff, <- list_elem_of_In.
  unfold SelectionMode.set_has. rewrite !bool_decide_eq_true.
  by rewrite <- list_elem_of_In.
Qed.




End batch_claims.

(** ** The OpenRouter backend *)
Section openrouter_claims.
Import OpenRouter.
Variable fetchOpenRouterModels : string → response.
Variable makeOpenRouterTranslateRequest : string → string → string → response.
Variable parse_models : string → option (list OpenRouterModel).
Variable parse_chat : string → option OpenRouterChatResponse.
Variable parse_strings : string → option (list string).
Variable syntax_error : string → string.
Variable stringify : list string → string.
Variable localeCompare : string → string → Z.
Variable trim : string → string.

Let translateBatch :=
  translateBatchWithLLM makeOpenRouterTranslateRequest parse_chat parse_strings
    syntax_error stringify trim.

Lemma match_array_nonempty content jsonMatch :
  match_array content = Some jsonMatch → content ≠ "".
Proof. by intros H ->. Qed.

(** C10.  For the empty list of texts, the batch translation raises the
    missing-key error (after a toast) when the API key is unset or
    empty, and otherwise returns the empty list at once: no request is
    sent to the relay. *)
Theorem batch_of_nothing (s : settings) (targetLang : string) :
  translateBatch s [] targetLang =
    if truthy (openrouterApiKey s)
    then (inr [], [])
    else (inl (Error "OpenRouter API key is not set"),
          [ShowToast "OpenRouter API key is not set. Please configure it in settings."
             FAILURE]).
Proof.
  unfold translateBatch, translateBatchWithLLM.
  by destruct (truthy (openrouterApiKey s)).
Qed.

(** C7.  A batch of [N] texts is sent (the key is set and [N > 0]), the
    relay answers with status 200, and the array found in the reply
    parses to [M] strings with [M <> N].  Then the batch translation
    returns, without raising, the [M] translations in the order of the
    array, each the trimmed string with source language "LLM", and
    records the mismatch with [console.warn]. *)
Theorem batch_length_mismatch_tolerated
    (s : settings) (texts : list string) (targetLang apiKey : string)
    (resp : OpenRouterChatResponse) (content jsonMatch : string)
    (results : list string) :
  let model := normalizeValue (openrouterModel s) "openai/gpt-4o-mini" in
  let prompt := batch_prompt stringify texts targetLang in
  let r := makeOpenRouterTranslateRequest apiKey model prompt in
  openrouterApiKey s = Some apiKey →
  apiKey ≠ "" →
  texts ≠ [] →
  status r = 200 →
  parse_chat (data r) = Some resp →
  first_content resp = Some content →
  match_array content = Some jsonMatch →
  parse_strings jsonMatch = Some results →
  length results ≠ length texts →
  ∃ translations,
    translateBatch s texts targetLang
    = (inr translations,
       [TranslateRequest apiKey model prompt;
        ConsoleWarn (length texts) (length results)])
    ∧ length translations = length results
    ∧ ∀ i text, results !! i = Some text →
                translations !! i
                = Some {| tv_text := trim text; tv_sourceLanguage := "LLM" |}.
Proof.
  intros model prompt r Hkey Hne Htexts Hstatus Hchat Hcontent Hmatch Hparse Hlen.
  exists (map (as_translation trim) results). split; [|split].
  - unfold translateBatch, translateBatchWithLLM.
    rewrite Hkey. simpl. rewrite bool_decide_eq_true_2 by done. simpl.
    assert (Hn : (length texts =? 0)%nat = false) by (by destruct texts).
    rewrite Hn.
    fold model. fold prompt. fold r. rewrite Hstatus. simpl.
    rewrite Hchat, Hcontent. simpl.
    rewrite bool_decide_eq_true_2 by (by eapply match_array_nonempty). simpl.
    rewrite Hmatch, Hparse.
    apply Nat.eqb_neq in Hlen. rewrite Hlen. done.
  - by rewrite length_map.
  - intros i text Hi. by rewrite list_lookup_fmap, Hi.
Qed.

Lemma map_rebuild (l : list OpenRouterModel) :
  map (λ m, {| id := id m; name := name m; pricing := pricing m |}) l = l.
Proof. induction l as [|[] l IH]; simpl; [done|]. by rewrite IH. Qed.

(** C9, as the code has it.  With a comparator that never calls both
    orders of a pair wrong:
    a listing that succeeds returns the provider's models sorted by name
    and stores their ids and names as the cache;
    [getModels] returns a non-empty cache as it is, without a request;
    with an empty or absent cache [getModels] is the listing itself, so a
    listing that fails is raised. *)
Theorem listing_sorted_and_cache_first :
  (∀ a b, 0 < localeCompare a b → localeCompare b a ≤ 0) →
  let fetch := fetchModels fetchOpenRouterModels parse_models syntax_error localeCompare in
  let get := getModels fetchOpenRouterModels parse_models syntax_error localeCompare in
  (∀ s apiKey listed,
     openrouterApiKey s = Some apiKey → apiKey ≠ "" →
     status (fetchOpenRouterModels apiKey) = 200 →
     parse_models (data (fetchOpenRouterModels apiKey)) = Some listed →
     ∃ models,
       fetch s
       = (inr models,
          Settings (openrouterApiKey s) (openrouterModel s)
            (Some (map (λ m, {| id := id m; name := name m; pricing := None |}) models)),
          [ModelsRequest apiKey])
       ∧ models ≡ₚ listed
       ∧ Sorted (λ a b, localeCompare (name a) (name b) ≤ 0) models)
  ∧ (∀ s cached,
       openrouterModelsCache s = Some cached → cached ≠ [] →
       get s = (inr cached, s, []))
  ∧ (∀ s,
       openrouterModelsCache s = None ∨ openrouterModelsCache s = Some [] →
       get s = fetch s).
Proof.
  intros Htotal fetch get. split; [|split].
  - intros s apiKey listed Hkey Hne Hstatus Hparse.
    exists (js_sort (by_name localeCompare) listed).
    split; [|split].
    + unfold fetch, fetchModels. rewrite Hkey.
      rewrite bool_decide_eq_false_2 by done.
      rewrite Hstatus. simpl. rewrite Hparse. by rewrite map_rebuild.
    + apply js_sort_perm.
    + apply (js_sort_sorted (by_name localeCompare)).
      intros a b. apply Htotal.
  - intros s cached Hcache Hne. unfold get, getModels. rewrite Hcache.
    by destruct cached.
  - intros s [Hcache|Hcache]; unfold get, getModels; by rewrite Hcache.
Qed.
End openrouter_claims.

Section openrouter_examples.
Import OpenRouter Examples.

Lemma batch_length_mismatch_tolerated_witness :
  ∃ translations,
    translateBatchWithLLM replies_with_two parse_chat_two parse_strings_two
      no_message no_stringify no_trim key_set ["uno"; "dos"; "tres"] "English"
    = (inr translations,
       [TranslateRequest "sk-or-1" "openai/gpt-4o-mini"
          (batch_prompt no_stringify ["uno"; "dos"; "tres"] "English");
        ConsoleWarn 3 2])
    ∧ length translations = 2%nat
    ∧ ∀ i text, [" one"; "two "] !! i = Some text →
                translations !! i
                = Some {| tv_text := no_trim text; tv_sourceLanguage := "LLM" |}.
Proof.
  apply (batch_length_mismatch_tolerated replies_with_two parse_chat_two
           parse_strings_two no_message no_stringify no_trim key_set ["uno"; "dos"; "tres"]
           "English" "sk-or-1"
           {| choices := Some [{| message := Some {| content := Some fenced_reply |} |}];
              error := None |}
           fenced_reply two_strings [" one"; "two "]).
  - reflexivity.
  - discriminate.
  - discriminate.
  - reflexivity.
  - reflexivity.
  - reflexivity.
  - reflexivity.
  - reflexivity.
  - simpl. lia.
Defined.

Lemma by_length_total a b : 0 < by_length a b → by_length b a ≤ 0.
Proof. unfold by_length. lia. Qed.

Lemma listing_sorted_and_cache_first_witness :
  getModels offline no_models no_message by_length cache_filled
  = (inr [{| id := "openai/gpt-4o-mini"; name := "GPT-4o mini"; pricing := None |}],
     cache_filled, []).
Proof.
  destruct (listing_sorted_and_cache_first offline no_models no_message by_length
              by_length_total) as (_ & Hcached & _).
  apply Hcached; [reflexivity|discriminate].
Defined.

(** C9, as stated, fails: the listing has not been performed (the cache
    is empty) and cannot be (the relay is offline); [getModels] does not
    return the cached list but raises the listing's error. *)
Lemma getModels_raises_when_listing_fails :
  getModels offline no_models no_message by_length key_set_cache_empty
  = (inl (Error "Failed to connect to OpenRouter API: offline"),
     key_set_cache_empty, [ModelsRequest "sk-or-1"])
  ∧ getModels offline no_models no_message by_length key_set_cache_empty
    ≠ (inr [], key_set_cache_empty, []).
Proof. split; [reflexivity|discriminate]. Qed.
End openrouter_examples.

(** * Further properties of the code *)

(** ** The result cache *)
Section store_extras.
Import TranslationStore.

Lemma loads_set_cache c w : loads (set_cache c w) = loads w.
Proof. done. Qed.

Lemma ensureLoaded_loads w :
  loads (ensureLoaded w) = (loads w + if _loaded w then 0 else 1)%nat.
Proof.
  unfold ensureLoaded, loads. destruct (_loaded w); simpl; [lia|].
  rewrite List.filter_app, length_app. simpl. lia.
Qed.

Lemma serve_loads w r :
  loads (serve w r)
  = (loads w + if _loaded w then 0 else if _loaded (serve w r) then 1 else 0)%nat
  ∧ (_loaded w = true → _loaded (serve w r) = true).
Proof.
  destruct r as [now i res mo|i|]; simpl.
  - unfold save. cbv zeta. unfold DataStore_set, loads. simpl.
    rewrite List.filter_app, length_app. simpl.
    fold (loads (ensureLoaded w)). rewrite ensureLoaded_loads, ensureLoaded_loaded.
    split; [unfold loads; destruct (_loaded w); lia|done].
  - unfold delete. cbv zeta. unfold DataStore_set, loads. simpl.
    rewrite List.filter_app, length_app. simpl.
    fold (loads (ensureLoaded w)). rewrite ensureLoaded_loads, ensureLoaded_loaded.
    split; [unfold loads; destruct (_loaded w); lia|done].
  - unfold clearAll, DataStore_del, loads. simpl.
    rewrite List.filter_app, length_app. simpl.
    split; [unfold loads; destruct (_loaded w); lia|done].
Qed.

Lemma serve_all_loaded rs w : _loaded w = true → _loaded (serve_all rs w) = true.
Proof.
  revert w. induction rs as [|r rs IH]; intros w Hl; [done|].
  unfold serve_all in *. simpl. apply IH. by apply serve_loads.
Qed.

(** X1.  Requests awaited one after the other read the persisted mapping
    at most once: not at all if the store is hydrated, and once, by the
    first [save] or [delete], if it is not ([clearAll] alone never
    hydrates). *)
Theorem awaited_requests_hydrate_once (rs : list request) (w : store) :
  loads (serve_all rs w)
  = (loads w + if _loaded w then 0 else if _loaded (serve_all rs w) then 1 else 0)%nat.
Proof.
  revert w. induction rs as [|r rs IH]; intros w.
  - unfold serve_all. simpl. destruct (_loaded w); lia.
  - unfold serve_all in *. simpl. rewrite IH.
    destruct (serve_loads w r) as [-> Hkeep].
    destruct (_loaded w) eqn:E.
    + rewrite (Hkeep eq_refl). lia.
    + destruct (_loaded (serve w r)) eqn:E'; [|lia].
      pose proof (serve_all_loaded rs (serve w r) E') as Hl.
      unfold serve_all in Hl. rewrite Hl. lia.
Qed.

Lemma turn_hydrated t w :
  _loaded w = true → not_hydrating t →
  _loaded (snd (turn t w)) = true
  ∧ loads (snd (turn t w)) = loads w
  ∧ not_hydrating (fst (turn t w)).
Proof.
  intros Hl Ht. destruct t as [o|o v|o| |r]; simpl in *; try done.
  - destruct o; rewrite ?Hl; simpl; try done.
    unfold clearAll, DataStore_del, loads. simpl.
    rewrite List.filter_app, length_app. simpl. split; [done|]. split; [lia|done].
  - destruct o; simpl; try done; unfold DataStore_set, loads; simpl;
      rewrite List.filter_app, length_app; simpl; (split; [done|]); split; (lia || done).
Qed.

Lemma step_hydrated i tasks w :
  _loaded w = true → Forall not_hydrating tasks →
  _loaded (snd (step i (tasks, w))) = true
  ∧ loads (snd (step i (tasks, w))) = loads w
  ∧ Forall not_hydrating (fst (step i (tasks, w))).
Proof.
  intros Hl Hts. unfold step. simpl.
  destruct (tasks !! i) as [t|] eqn:Ei; [|done].
  assert (Ht : not_hydrating t).
  { rewrite Forall_forall in Hts. apply Hts.
    by eapply list_elem_of_lookup_2. }
  destruct (turn_hydrated t w Hl Ht) as (Hl' & Hloads & Ht').
  destruct (turn t w) as [t' w'] eqn:Et. simpl in *.
  repeat split; try done.
  apply Forall_forall. intros x Hx.
  apply list_elem_of_lookup in Hx as [j Hj].
  destruct (decide (i = j)) as [->|Hij].
  - rewrite list_lookup_insert_eq in Hj by (by eapply lookup_lt_Some).
    by injection Hj as <-.
  - rewrite list_lookup_insert_ne in Hj by done.
    rewrite Forall_forall in Hts. apply Hts.
    by eapply list_elem_of_lookup_2.
Qed.

(** X2.  Once the store is hydrated, no interleaving of calls reads the
    persisted mapping again or starts a hydration: under every schedule
    of tasks none of which is in the middle of one, [_loaded] stays true,
    no [DataStore.get] is issued and no task waits for one. *)
Theorem hydrated_store_is_not_read_again
    (tasks : list task) (sched : list nat) (w : store) :
  _loaded w = true →
  Forall not_hydrating tasks →
  let c := run_schedule sched (tasks, w) in
  _loaded (snd c) = true
  ∧ loads (snd c) = loads w
  ∧ Forall not_hydrating (fst c).
Proof.
  intros Hl Hts. revert tasks w Hl Hts.
  induction sched as [|i sched IH]; intros tasks w Hl Hts; [done|].
  destruct (step_hydrated i tasks w Hl Hts) as (Hl' & Hloads & Hts').
  simpl. unfold run_schedule in *. simpl.
  destruct (step i (tasks, w)) as [tasks' w']. simpl in *.
  destruct (IH tasks' w' Hl' Hts') as (? & ? & ?).
  repeat split; try done. congruence.
Qed.

(** X3.  What has been saved survives a restart.  After any awaited
    mutation, a new session (the module evaluated afresh over the entry
    the key-value store holds) finds nothing with [get] before its
    hydration, and after [load()] its cache is the cache the old session
    had. *)
Theorem restart_restores_cache (rs : list request) (r : request) (w : store) :
  let old := serve (serve_all rs w) r in
  let restarted := fresh (persisted old) in
  (∀ i, get i restarted = None)
  ∧ _cache (load restarted) = _cache old
  ∧ ∀ i, get i (load restarted) = get i old.
Proof.
  simpl. set (w0 := serve_all rs w).
  assert (H : _cache (load (fresh (persisted (serve w0 r)))) = _cache (serve w0 r)).
  { destruct r as [now i res mo|i|]; reflexivity. }
  split; [intros i; apply lookup_empty|]. split; [done|].
  intros i. unfold get. by rewrite H.
Qed.

(** X4.  [save] is an upsert of one key and [delete] removes one key, of
    the mapping the store stands for (persisted entries included, also
    when the store was not hydrated before): the entry of the id is
    replaced or removed, every other id keeps its entry, and [count()]
    changes by one exactly when the id was new, or was present. *)
Theorem save_and_delete_touch_one_key
    (now : Z) (i : string) (res : TranslationValue) (mo : option string) (w : store) :
  let saved := {| text := tv_text res; sourceLanguage := tv_sourceLanguage res;
                  model := mo; timestamp := now |} in
  (∀ j, get j (save now i res mo w)
        = if decide (i = j) then Some saved else contents w !! j)
  ∧ count (save now i res mo w)
    = match contents w !! i with
      | Some _ => size (contents w)
      | None => S (size (contents w))
      end
  ∧ (∀ j, get j (delete i w) = if decide (i = j) then None else contents w !! j)
  ∧ count (delete i w)
    = match contents w !! i with
      | Some _ => Nat.pred (size (contents w))
      | None => size (contents w)
      end.
Proof.
  simpl. unfold get, count, save, delete. simpl.
  rewrite !ensureLoaded_cache. repeat split.
  - intros j. apply lookup_insert.
  - rewrite map_size_insert. by destruct (contents w !! i).
  - intros j. apply lookup_delete.
  - rewrite map_size_delete. by destruct (contents w !! i).
Qed.

(** X5.  A [clearAll] that runs while the first hydration is waiting for
    its answer is undone in the cache: the answer, read before the
    deletion, replaces the emptied cache, so [get] and [getAll] show the
    old entries again although nothing is persisted, and the next [save]
    persists them all again. *)
Theorem clearAll_during_hydration_is_undone
    (db : gmap string SavedTranslation)
    (now : Z) (i : string) (res : TranslationValue) (mo : option string) :
  let start := ([Called CallLoad; Called CallClearAll], fresh (Some db)) in
  let finish := run_schedule [0; 1; 0; 0; 1]%nat start in
  fst finish = [Returned None; Returned None]
  ∧ persisted (snd finish) = None
  ∧ _cache (snd finish) = db
  ∧ fst (getAll (snd finish)) ≡ₚ map_to_list db
  ∧ persisted (save now i res mo (snd finish))
    = Some (<[i := {| text := tv_text res; sourceLanguage := tv_sourceLanguage res;
                      model := mo; timestamp := now |}]> db).
Proof.
  simpl. unfold run_schedule, step. simpl. repeat split.
  unfold getAll, ensureLoaded, entries_sorted. simpl. apply js_sort_perm.
Qed.
End store_extras.

(** ** The progress tracker *)
Section progress_extras.
Import ProgressBar.

(** X6.  A reset left over from the previous [end()] strikes the next
    batch.  When a new [start] follows an [end] before the deferred reset
    has run, the reset then sets [total] back to 0 while the new operation
    is in flight: whatever updates follow, the tracker stays active with
    [total = 0], the percentage stays 0 and the bar is shown
    indeterminate. *)
Theorem stale_reset_strikes_next_operation
    (s : state) (total : option Z) (positions : list (option Z)) :
  let s' := run ([CEnd; CStart total; CTimeout] ++ map CUpdate positions) s in
  _isTranslating s' = true
  ∧ _total s' = 0
  ∧ _progress s' = Pct 0
  ∧ showDeterminate s' = false.
Proof.
  simpl. unfold run. simpl.
  set (s0 := reset_callback (startProgress total (endProgress s))).
  assert (H0 : _isTranslating s0 = true ∧ _total s0 = 0 ∧ _progress s0 = Pct 0) by done.
  clearbody s0. revert s0 H0.
  induction positions as [|p ps IH]; intros s0 (Ha & Ht & Hp); simpl.
  - unfold showDeterminate. by rewrite Ht.
  - apply IH. unfold updateProgress. simpl. by rewrite Ht, Ha.
Qed.

Lemma prefix_within_total cs s j :
  invariant s → all_within_total s cs → invariant (run (take j cs) s).
Proof.
  revert s j. induction cs as [|c cs IH]; intros s j Hs Hcs.
  - by rewrite take_nil.
  - destruct j as [|j]; [done|]. destruct Hcs as [Hc Hcs].
    simpl. apply IH; [|done]. by apply apply_within_total.
Qed.
End progress_extras.

(** ** The selection state machine *)
Section selection_extras.
Import SelectionMode.

Lemma set_delete_NoDup m l : NoDup l → NoDup (set_delete m l).
Proof.
  intros H. unfold set_delete. induction H as [|x l Hx Hl IH]; simpl; [constructor|].
  destruct (bool_decide (x ≠ m)); [|done].
  constructor; [|done]. intros Hin. apply Hx.
  apply list_elem_of_In, filter_In in Hin as [Hin _]. by apply list_elem_of_In.
Qed.

Lemma flipped_NoDup m l : NoDup l → NoDup (flipped m l).
Proof.
  intros H. unfold flipped. destruct (set_has m l) eqn:E.
  - by apply set_delete_NoDup.
  - unfold set_add. rewrite E. apply NoDup_app. split; [done|].
    split; [|apply NoDup_singleton].
    intros x Hx ->%list_elem_of_singleton.
    apply set_has_true in Hx. congruence.
Qed.

Lemma kept_ids_NoDup ch s : NoDup (_selectedIds s) → NoDup (kept_ids ch s).
Proof.
  intros H. unfold kept_ids.
  destruct (truthy _); [|done]. destruct (bool_decide _); [done|constructor].
Qed.

(** The list that stands for the [Set] never holds an id twice. *)
Lemma run_NoDup cs : NoDup (_selectedIds (run cs)).
Proof.
  induction cs as [|c cs IH] using rev_ind; [constructor|].
  rewrite run_snoc. destruct c as [| |m ch]; simpl.
  - unfold toggleSelectionMode.
    destruct (_isSelectionMode (run cs)); simpl; [constructor|done].
  - constructor.
  - destruct (_isSelectionMode (run cs)) eqn:Hon.
    + destruct (select_on m ch (run cs) Hon) as [-> _].
      by apply flipped_NoDup, kept_ids_NoDup.
    + unfold toggleMessageSelection. by rewrite Hon.
Qed.

Lemma set_delete_absent m l : m ∉ l → set_delete m l = l.
Proof.
  intros H. unfold set_delete. induction l as [|x l IH]; simpl; [done|].
  rewrite not_elem_of_cons in H. destruct H as [Hx Hl].
  rewrite bool_decide_eq_true_2 by done. by rewrite IH.
Qed.

Lemma set_delete_present m l :
  NoDup l → m ∈ l →
  l ≡ₚ m :: set_delete m l ∧ length (set_delete m l) = Nat.pred (length l).
Proof.
  intros Hnd Hin. induction Hnd as [|x l Hx Hl IH]; [by apply elem_of_nil in Hin|].
  unfold set_delete in *. simpl.
  destruct (decide (x = m)) as [->|Hne].
  - rewrite bool_decide_eq_false_2 by (by intros ?).
    fold (set_delete m l). by rewrite set_delete_absent.
  - rewrite bool_decide_eq_true_2 by done.
    apply elem_of_cons in Hin as [->|Hin]; [done|].
    destruct (IH Hin) as [Hp Hlen]. split.
    + rewrite Hp at 1. apply perm_swap.
    + simpl. rewrite Hlen. destruct l; [by apply elem_of_nil in Hin|done].
Qed.

(** X7.  In selection mode, a select in the bound channel (or the first
    select, when no channel is bound) flips the membership of its message
    and of nothing else: the message is selected afterwards exactly if it
    was not before, every other id keeps its status, the count moves by
    one accordingly, the channel is bound, and a second select of the same
    message gives back the selection there was. *)
Theorem select_flips_one_message (cs : list call) (m ch : string) :
  let s := run cs in
  let s' := toggleMessageSelection m ch s in
  _isSelectionMode s = true →
  _currentChannelId s = None ∨ _currentChannelId s = Some ch →
  (m ∈ _selectedIds s' ↔ m ∉ _selectedIds s)
  ∧ (∀ i, i ≠ m → i ∈ _selectedIds s' ↔ i ∈ _selectedIds s)
  ∧ getSelectedCount s'
    = (if isMessageSelected m s
       then Nat.pred (getSelectedCount s)
       else S (getSelectedCount s))
  ∧ _currentChannelId s' = Some ch
  ∧ _selectedIds (toggleMessageSelection m ch s') ≡ₚ _selectedIds s.
Proof.
  intros s s' Hon Hch. subst s s'.
  pose proof (run_NoDup cs) as Hnd.
  assert (Hkept : kept_ids ch (run cs) = _selectedIds (run cs)).
  { unfold kept_ids. destruct Hch as [->| ->]; simpl; [done|].
    destruct (bool_decide (ch ≠ "")); [|done]. by rewrite bool_decide_eq_true_2. }
  destruct (select_on m ch (run cs) Hon) as [Hids Hbound].
  destruct (select_binds m ch (run cs) Hon) as [Hon' _].
  destruct (select_on m ch _ Hon') as [Hids' _].
  assert (Hkept' : kept_ids ch (toggleMessageSelection m ch (run cs))
                   = _selectedIds (toggleMessageSelection m ch (run cs))).
  { unfold kept_ids. rewrite Hbound. simpl.
    destruct (bool_decide (ch ≠ "")); [|done]. by rewrite bool_decide_eq_true_2. }
  rewrite Hids', Hkept', Hids, Hkept. unfold getSelectedCount, isMessageSelected.
  rewrite Hids, Hkept. clear Hids Hids' Hkept Hkept' Hon Hon' Hch.
  set (ids := _selectedIds (run cs)) in *. clearbody ids.
  unfold flipped at 1 2 3 5. destruct (set_has m ids) eqn:E.
  - apply set_has_true in E.
    destruct (set_delete_present m ids Hnd E) as [Hp Hlen].
    split; [|split; [|split; [|split]]]; try done.
    + rewrite elem_of_set_delete. intuition congruence.
    + intros i Hi. rewrite elem_of_set_delete. intuition congruence.
    + unfold flipped.
      assert (Hm : set_has m (set_delete m ids) = false).
      { apply not_true_is_false. rewrite set_has_true, elem_of_set_delete. intuition congruence. }
      rewrite Hm. unfold set_add. rewrite Hm.
      rewrite Hp at 2. by rewrite Permutation_app_comm.
  - assert (Hm : m ∉ ids) by (rewrite <- set_has_true; congruence).
    split; [|split; [|split; [|split]]]; try done.
    + rewrite elem_of_set_add. intuition congruence.
    + intros i Hi. rewrite elem_of_set_add. intuition congruence.
    + unfold set_add. rewrite E. rewrite length_app. simpl. lia.
    + unfold flipped.
      assert (Hs : set_has m (set_add m ids) = true).
      { rewrite set_has_true, elem_of_set_add. by right. }
      rewrite Hs. unfold set_add. rewrite E. unfold set_delete.
      rewrite List.filter_app. simpl.
      rewrite bool_decide_eq_false_2 by (by intros ?).
      rewrite app_nil_r. fold (set_delete m ids). by rewrite set_delete_absent.
Qed.
End selection_extras.

(** ** The batch orchestrator *)
Section batch_extras.
Import SelectionActionBar BatchProgress.
Variable h : host.

Lemma updates_cons first k :
  updates first (S k) = ProgressBar.CUpdate (Some (Z.of_nat first)) :: updates (S first) k.
Proof. done. Qed.

(** The loop as calls of the tracker: one update per item answered, with
    the item's number, and as many saves. *)
Lemma translate_from_calls msgs i a :
  let r := translate_from h i msgs a in
  ∃ new k,
    events (snd r) = events a ++ new
    ∧ (k ≤ length msgs)%nat
    ∧ progress_calls new = updates (S i) k
    ∧ length (List.filter is_save new) = k
    ∧ progress (snd r) = ProgressBar.run (updates (S i) k) (progress a).
Proof.
  revert i a. induction msgs as [|msg msgs IH]; intros i a; simpl.
  - exists [], 0%nat. by rewrite app_nil_r.
  - destruct (translate h i received (content msg)) as [e|trans] eqn:E; simpl.
    + exists [Translate received (content msg)], 0%nat. repeat split; try done. lia.
    + destruct (IH (S i) (translated h i msg trans
                          (emit (Translate received (content msg)) a)))
        as (new & k & Hev & Hk & Hcalls & Hsaves & Hprog).
      exists (item_trace (model_setting h) i msg trans ++ new), (S k).
      split; [|split; [lia|split; [|split]]].
      * rewrite Hev. simpl. by rewrite <- !app_assoc.
      * change (progress_calls (item_trace (model_setting h) i msg trans ++ new))
          with (ProgressBar.CUpdate (Some (Z.of_nat (i + 1))) :: progress_calls new).
        by rewrite Hcalls, Nat.add_1_r.
      * change (List.filter is_save (item_trace (model_setting h) i msg trans ++ new))
          with (StoreSave (id msg) trans (model_setting h) :: List.filter is_save new).
        simpl. by rewrite Hsaves.
      * rewrite Hprog.
        change (progress (translated h i msg trans
                            (emit (Translate received (content msg)) a)))
          with (ProgressBar.updateProgress (Some (Z.of_nat (i + 1))) (progress a)).
        by rewrite Nat.add_1_r.
Qed.

Lemma updates_within_total n i k s :
  ProgressBar._total s = Z.of_nat n → (i + k ≤ n)%nat →
  ProgressBar.all_within_total s (updates (S i) k ++ [ProgressBar.CEnd]).
Proof.
  revert i s. induction k as [|k IH]; intros i s Ht Hik.
  - by simpl.
  - rewrite updates_cons. simpl. split; [lia|].
    apply IH; [done|lia].
Qed.

(** X8.  A batch keeps the tracker in range.  Whatever the provider does,
    the handler calls [start(N)] for the [N] resolved items, then
    [update(1)], ..., [update(k)] for the [k <= N] items answered before
    the first failure (as many as it saves), then [end()]; and from
    [start] on, after each of these calls, [0 <= current <= total]. *)
Theorem batch_keeps_progress_in_range (a : app) (ch : string) :
  SelectionMode._currentChannelId (selection a) = Some ch →
  ch ≠ "" →
  SelectionMode._selectedIds (selection a) ≠ [] →
  let a' := handleTranslateSelected h a in
  let n := length (selectedMessages h ch a) in
  ∃ new k,
    events a' = events a ++ new
    ∧ (k ≤ n)%nat
    ∧ length (List.filter is_save new) = k
    ∧ progress_calls new
      = ProgressBar.CStart (Some (Z.of_nat n)) :: updates 1 k ++ [ProgressBar.CEnd]
    ∧ progress a' = ProgressBar.run (progress_calls new) (progress a)
    ∧ ∀ j, ProgressBar.invariant
             (ProgressBar.run (take (S j) (progress_calls new)) (progress a)).
Proof.
  intros Hch Hne Hsel a' n. subst a' n.
  rewrite (handle_guarded h a ch Hch Hne Hsel). cbv zeta.
  set (n := length (selectedMessages h ch a)).
  set (a1 := startProgress (Z.of_nat n) (setIsTranslating true a)).
  destruct (translate_from_calls (selectedMessages h ch a) 0 a1)
    as (new & k & Hev & Hk & Hcalls & Hsaves & Hprog).
  destruct (translate_from h 0 (selectedMessages h ch a) a1) as [err a2].
  simpl in Hev, Hprog.
  exists ([SetIsTranslating true; StartProgress (Z.of_nat n)] ++ new
          ++ [closing_toast n err; EndProgress; SetIsTranslating false;
              ExitSelectionMode]), k.
  assert (Hpc : progress_calls
                  ([SetIsTranslating true; StartProgress (Z.of_nat n)] ++ new
                   ++ [closing_toast n err; EndProgress; SetIsTranslating false;
                       ExitSelectionMode])
                = ProgressBar.CStart (Some (Z.of_nat n)) :: updates 1 k
                    ++ [ProgressBar.CEnd]).
  { unfold progress_calls in *. rewrite !omap_app, Hcalls. simpl.
    by destruct err. }
  rewrite Hpc. split; [|split; [done|split; [|split; [done|split]]]].
  - simpl. rewrite Hev. simpl. by rewrite <- !app_assoc.
  - rewrite !List.filter_app, !length_app. simpl. destruct err; simpl; lia.
  - simpl. rewrite Hprog. unfold ProgressBar.run. by rewrite foldl_app.
  - intros j. simpl. apply prefix_within_total.
    + unfold ProgressBar.invariant. simpl. lia.
    + apply (updates_within_total n); [done|lia].
Qed.

(** X9.  Whenever the action bar is shown (selection mode is on and
    something is selected; channel ids are non-empty), "Translate All" does
    run: a channel is bound, the handler starts, and when it is done the
    selection mode is off and the bar is gone. *)
Theorem shown_bar_translates_and_closes (cs : list SelectionMode.call) (a : app) :
  Forall (λ c, SelectionMode.channel_of c ≠ Some "") cs →
  selection a = SelectionMode.run cs →
  bar_shown (selection a) = true →
  let a' := handleTranslateSelected h a in
  bar_shown (selection a') = false
  ∧ ∃ ch new,
      SelectionMode._currentChannelId (selection a) = Some ch
      ∧ events a'
        = events a
            ++ [SetIsTranslating true;
                StartProgress (Z.of_nat (length (selectedMessages h ch a)))]
            ++ new
      ∧ last new = Some ExitSelectionMode.
Proof.
  intros Hcs Hsel Hshown a'. subst a'.
  unfold bar_shown in Hshown. apply andb_true_iff in Hshown as [Hon Hcount].
  assert (Hids : SelectionMode._selectedIds (selection a) ≠ []).
  { unfold SelectionMode.getSelectedCount in Hcount.
    by destruct (SelectionMode._selectedIds (selection a)). }
  destruct (selected_in_bound_channel cs Hcs) as [Hne Hbound].
  rewrite <- Hsel in Hne, Hbound.
  destruct (SelectionMode._selectedIds (selection a)) as [|i ids] eqn:Ei; [done|].
  destruct (Hbound i (list_elem_of_here _ _)) as (ch & Hch & _).
  rewrite <- Ei in Hids.
  rewrite (handle_guarded h a ch Hch (Hne ch Hch) Hids). cbv zeta.
  set (a1 := startProgress _ (setIsTranslating true a)).
  destruct (translate_from_frame h (selectedMessages h ch a) 0 a1)
    as (_ & _ & _ & new & Hev & _).
  destruct (translate_from h 0 (selectedMessages h ch a) a1) as [err a2].
  simpl in Hev. split; [done|].
  exists ch, (new ++ [closing_toast (length (selectedMessages h ch a)) err;
                      EndProgress; SetIsTranslating false; ExitSelectionMode]).
  split; [done|]. split.
  - simpl. rewrite Hev. simpl. by rewrite <- !app_assoc.
  - match goal with |- last (new ++ [?e1; ?e2; ?e3; ?e4]) = _ =>
      change (new ++ [e1; e2; e3; e4]) with (new ++ [e1; e2; e3] ++ [e4])
    end.
    rewrite app_assoc. apply last_snoc.
Qed.

Lemma get_save now i res mo w j :
  TranslationStore.get j (TranslationStore.save now i res mo w)
  = if decide (i = j)
    then Some {| TranslationStore.text := tv_text res;
                 TranslationStore.sourceLanguage := tv_sourceLanguage res;
                 TranslationStore.model := mo;
                 TranslationStore.timestamp := now |}
    else TranslationStore.contents w !! j.
Proof.
  unfold TranslationStore.get, TranslationStore.save. simpl.
  rewrite ensureLoaded_cache. apply lookup_insert.
Qed.





(** X11.  When none of the selected messages can be resolved (each is
    missing from the channel's list or has no text), the handler still
    runs: it starts progress with total 0, calls neither the provider nor
    the store, reports "Translated 0 messages" as a success, and leaves
    selection mode. *)
Theorem batch_of_unresolvable_selection (a : app) (ch : string) :
  SelectionMode._currentChannelId (selection a) = Some ch →
  ch ≠ "" →
  SelectionMode._selectedIds (selection a) ≠ [] →
  (∀ m, m ∈ getMessages h ch →
        id m ∈ SelectionMode._selectedIds (selection a) → content m = "") →
  let a' := handleTranslateSelected h a in
  events a'
  = events a ++ [SetIsTranslating true; StartProgress 0;
                 ShowToast "Translated 0 messages" SUCCESS;
                 EndProgress; SetIsTranslating false; ExitSelectionMode]
  ∧ translations a' = translations a
  ∧ SelectionMode._isSelectionMode (selection a') = false.
Proof.
  intros Hch Hne Hsel Hnone a'. subst a'.
  assert (Hempty : selectedMessages h ch a = []).
  { destruct (selectedMessages h ch a) as [|m l] eqn:E; [done|].
    assert (Hm : m ∈ selectedMessages h ch a) by (rewrite E; apply list_elem_of_here).
    apply elem_of_selectedMessages in Hm as (Hin & Hid & Hc).
    by specialize (Hnone m Hin Hid). }
  rewrite (handle_guarded h a ch Hch Hne Hsel). cbv zeta. rewrite Hempty. simpl.
  by rewrite <- !app_assoc.
Qed.
End batch_extras.

(** ** Translating one message, and the translation shown under it *)
Section message_extras.
Import TranslationAccessory MessageActions.

Lemma call_setter_mounted i v setters st :
  setters !! i = Some st → call_setter i v setters !! i = Some v.
Proof. intros H. unfold call_setter. rewrite H. apply lookup_insert_eq. Qed.

(** X12.  Translating a single message, with its accessory mounted: in
    both outcomes the progress is ended (once) and the selection is left
    alone.  If the provider answers, the accessory shows the translation,
    the cache holds it under the message id, and an accessory mounted
    later shows the same.  If the provider fails, nothing is saved and the
    accessory shows the error message (or nothing at all, if that message
    is empty). *)
Theorem message_translation_outcome
    (h : SelectionActionBar.host) (i content : string) (c : client)
    (st : TranslationState) :
  accessories c !! i = Some st →
  let c' := translateMessage h i content c in
  ProgressBar._isTranslating (progress c') = false
  ∧ ProgressBar.timers (progress c') = S (ProgressBar.timers (progress c))
  ∧ selection c' = selection c
  ∧ match SelectionActionBar.translate h 0 SelectionActionBar.received content with
    | inr trans =>
        shown i (accessories c') = Translated (tv_text trans) (tv_sourceLanguage trans)
        ∧ TranslationStore.get i (translations c')
          = Some (BatchProgress.saved_entry h 0 trans)
        ∧ render (initial_state i (translations c'))
          = Translated (tv_text trans) (tv_sourceLanguage trans)
    | inl e =>
        translations c' = translations c
        ∧ shown i (accessories c')
          = if bool_decide (message_or "Translation failed" e = "")
            then Nothing
            else Failed (message_or "Translation failed" e)
    end.
Proof.
  intros Hm c'. subst c'. unfold translateMessage.
  assert (Hm' : ∃ st', startTranslating i None (accessories c) !! i = Some st').
  { eexists. by eapply call_setter_mounted. }
  destruct Hm' as [st' Hm'].
  destruct (SelectionActionBar.translate h 0 SelectionActionBar.received content)
    as [e|trans]; simpl; (split; [done|]); (split; [done|]); (split; [done|]).
  - split; [done|]. unfold shown, handleTranslateError.
    rewrite (call_setter_mounted _ _ _ _ Hm'). unfold render. simpl.
    destruct (bool_decide (message_or "Translation failed" e = "")) eqn:E.
    + apply bool_decide_eq_true in E. by rewrite bool_decide_eq_false_2 by (by intros ?).
    + apply bool_decide_eq_false in E. by rewrite bool_decide_eq_true_2.
  - assert (Hget : TranslationStore.get i
                     (TranslationStore.save (SelectionActionBar.Date_now h 0) i trans
                        (SelectionActionBar.model_setting h) (translations c))
                   = Some (BatchProgress.saved_entry h 0 trans)).
    { rewrite get_save. by rewrite decide_True. }
    split; [|split; [done|]].
    + unfold shown, handleTranslate. by rewrite (call_setter_mounted _ _ _ _ Hm').
    + unfold initial_state. by rewrite Hget.
Qed.

(** X13.  What is saved is shown again: an accessory mounted after
    [save(id, result)] starts with that translation on screen, and after
    its [dismiss] it shows nothing, the cache has no entry for the id, and
    an accessory mounted anew for the message shows nothing either. *)
Theorem saved_translation_shows_until_dismissed
    (now : Z) (i : string) (res : TranslationValue) (mo : option string)
    (w : TranslationStore.store) (setters : gmap string TranslationState) :
  let w1 := TranslationStore.save now i res mo w in
  let mounted := mount false i w1 setters in
  let dismissed := dismiss i (mounted, w1) in
  shown i mounted = Translated (tv_text res) (tv_sourceLanguage res)
  ∧ shown i (fst dismissed) = Nothing
  ∧ TranslationStore.get i (snd dismissed) = None
  ∧ shown i (mount false i (snd dismissed) (unmount false i (fst dismissed))) = Nothing.
Proof.
  simpl. unfold shown, mount, unmount, dismiss. simpl.
  assert (Hinit : initial_state i (TranslationStore.save now i res mo w)
                  = {| loading := false; translation := Some res; error := None |}).
  { unfold initial_state. rewrite get_save, decide_True by done. simpl. by destruct res. }
  assert (Hgone : TranslationStore.get i
                    (TranslationStore.delete i (TranslationStore.save now i res mo w))
                  = None).
  { unfold TranslationStore.get, TranslationStore.delete. simpl. apply lookup_delete_eq. }
  rewrite Hinit. repeat split.
  - by rewrite lookup_insert_eq.
  - unfold call_setter. rewrite lookup_insert_eq. by rewrite lookup_insert_eq.
  - done.
  - rewrite lookup_insert_eq. unfold initial_state. by rewrite Hgone.
Qed.

Lemma kept_ids_same ch s :
  SelectionMode._currentChannelId s = None ∨ SelectionMode._currentChannelId s = Some ch →
  SelectionMode.kept_ids ch s = SelectionMode._selectedIds s.
Proof.
  unfold SelectionMode.kept_ids. intros [->| ->]; simpl; [done|].
  destruct (bool_decide (ch ≠ "")); [|done]. by rewrite bool_decide_eq_true_2.
Qed.

Lemma elem_of_flipped_ne i m ids :
  i ≠ m → i ∈ SelectionMode.flipped m ids ↔ i ∈ ids.
Proof.
  intros Hne. unfold SelectionMode.flipped. destruct (SelectionMode.set_has m ids).
  - rewrite elem_of_set_delete. intuition.
  - rewrite elem_of_set_add. intuition.
Qed.

(** X14.  A click on the popover button changes the selection status of no
    message but the one clicked.  In particular a click on a message of
    another channel than the bound one does not clear the selection: the
    button then translates that message and leaves the selection state as
    it is. *)
Theorem popover_click_keeps_other_selections
    (h : SelectionActionBar.host) (message : DiscordMessage) (c : client) (i : string) :
  i ≠ id message →
  let c' := popover_click h message c in
  (i ∈ SelectionMode._selectedIds (selection c')
   ↔ i ∈ SelectionMode._selectedIds (selection c))
  ∧ (inSelectionModeForChannel message c = false → selection c' = selection c).
Proof.
  intros Hi c'. subst c'. unfold popover_click.
  destruct (bool_decide (getMessageContent message = "")); [done|].
  destruct (inSelectionModeForChannel message c) eqn:E.
  - split; [|done]. simpl.
    unfold inSelectionModeForChannel in E. apply andb_true_iff in E as [Hon Hch].
    apply orb_true_iff in Hch. rewrite !bool_decide_eq_true in Hch.
    destruct (select_on (id message) (channel_id message) (selection c) Hon) as [-> _].
    rewrite (kept_ids_same _ _ Hch). by apply elem_of_flipped_ne.
  - split; [|intros _]; unfold translateMessage;
      by destruct (SelectionActionBar.translate h 0 _ _).
Qed.
End message_extras.

(** ** Channel names *)
Section channel_extras.
Import ChannelMenu.

Lemma append_nonempty (a b : string) : a ≠ "" → a +:+ b ≠ "".
Proof. by destruct a. Qed.

(** X15.  Translating a channel's name and removing the translation is a
    round trip.  For a channel with a name and no translation yet, the
    menu offers "Translate"; if the provider answers, the name becomes
    [name [translation]] and the menu then offers the removal, which
    gives the channel its name back and forgets the translation.  If the
    provider fails, name and translations stay as they were.  Either way
    the progress is ended. *)
Theorem channel_translation_round_trip
    (h : SelectionActionBar.host) (i name : string) (s : channels) :
  names s !! i = Some name →
  name ≠ "" →
  channelTranslations s !! i = None →
  let s1 := choose h i s in
  menu_item i s = TranslateChannel
  ∧ ProgressBar._isTranslating (progress s1) = false
  ∧ match SelectionActionBar.translate h 0 SelectionActionBar.received name with
    | inr trans =>
        names s1 !! i = Some (name +:+ " [" +:+ tv_text trans +:+ "]")
        ∧ menu_item i s1 = RemoveChannelTranslation
        ∧ names (choose h i s1) = names s
        ∧ channelTranslations (choose h i s1) = channelTranslations s
    | inl e =>
        names s1 = names s
        ∧ channelTranslations s1 = channelTranslations s
        ∧ menu_item i s1 = TranslateChannel
    end.
Proof.
  intros Hname Hne Hnone s1.
  assert (Hitem : menu_item i s = TranslateChannel).
  { unfold menu_item. rewrite Hname, Hnone.
    rewrite bool_decide_eq_false_2 by done.
    by rewrite bool_decide_eq_false_2 by (by intros [? ?]). }
  assert (Hc : choose h i s = translate_action h i s)
    by (unfold choose; by rewrite Hitem).
  subst s1. rewrite Hc. clear Hc. unfold translate_action.
  rewrite Hname. simpl.
  destruct (SelectionActionBar.translate h 0 SelectionActionBar.received name)
    as [e|trans]; simpl.
  - split; [done|]. split; [done|]. repeat split.
    unfold menu_item. simpl. rewrite Hname, Hnone.
    rewrite bool_decide_eq_false_2 by done.
    by rewrite bool_decide_eq_false_2 by (by intros [? ?]).
  - split; [done|]. split; [done|].
    assert (Hitem' : ∀ p t,
               menu_item i
                 (Channels (<[i := name +:+ " [" +:+ tv_text trans +:+ "]"]> (names s))
                    (<[i := (name, tv_text trans)]> (channelTranslations s)) p t)
               = RemoveChannelTranslation).
    { intros p t. unfold menu_item. simpl. rewrite !lookup_insert_eq.
      rewrite bool_decide_eq_false_2 by (by apply append_nonempty).
      by rewrite bool_decide_eq_true_2 by (by eexists). }
    split; [by rewrite lookup_insert_eq|]. split; [apply Hitem'|].
    unfold choose. rewrite Hitem'. unfold remove_action. simpl.
    rewrite lookup_insert_eq. simpl. split.
    + rewrite insert_insert_eq. by apply insert_id.
    + by apply delete_insert_id.
Qed.
End channel_extras.

(** ** The history tab *)
Section history_extras.
Import TranslationStore HistoryTab.

Lemma StronglySorted_filter_bool {A} (R : A → A → Prop) (f : A → bool) l :
  StronglySorted R l → StronglySorted R (List.filter f l).
Proof.
  induction 1 as [|x l Hl IH Hx]; simpl; [constructor|].
  destruct (f x); [|done]. constructor; [done|].
  rewrite Forall_forall in Hx |- *. intros y Hy.
  apply Hx. apply list_elem_of_In, filter_In in Hy as [Hy _]. by apply list_elem_of_In.
Qed.

Lemma NoDup_filter_bool {A} (f : A → bool) (l : list A) :
  NoDup l → NoDup (List.filter f l).
Proof.
  induction 1 as [|x l Hx Hl IH]; simpl; [constructor|].
  destruct (f x); [|done]. constructor; [|done]. intros Hin. apply Hx.
  apply list_elem_of_In, filter_In in Hin as [Hin _]. by apply list_elem_of_In.
Qed.

Lemma opened_consistent w : consistent (opened w).
Proof.
  unfold opened, getAll, consistent. simpl.
  split; [apply ensureLoaded_loaded|].
  assert (Hp : entries_sorted (ensureLoaded w) ≡ₚ map_to_list (_cache (ensureLoaded w)))
    by apply js_sort_perm.
  split; [rewrite Hp; apply NoDup_map_to_list|].
  split; [|apply entries_sorted_newest_first].
  intros i s. by rewrite Hp, elem_of_map_to_list.
Qed.

Lemma act_consistent t a : consistent t → consistent (act t a).
Proof.
  intros (Hl & Hnd & Hel & Hs). destruct a as [m|]; simpl.
  - unfold handleDelete, consistent, delete, ensureLoaded. simpl. rewrite Hl. simpl.
    split; [done|]. split; [by apply NoDup_filter_bool|].
    split; [|by apply StronglySorted_filter_bool].
    intros i s. rewrite list_elem_of_In, filter_In, <- list_elem_of_In.
    rewrite Hel, bool_decide_eq_true, lookup_delete_Some. simpl. intuition.
  - unfold handleClearAll, consistent, clearAll. simpl.
    split; [done|]. split; [constructor|]. split; [|constructor].
    intros i s. rewrite lookup_empty. split; [|done]. by intros ?%elem_of_nil.
Qed.

(** X16.  The history tab stays true to the store.  From the moment the
    tab has loaded, through any sequence of row deletions and "Clear All",
    the rows listed are exactly the entries [getAll()] would return now,
    and they are listed newest first. *)
Theorem history_tab_stays_consistent
    (w : TranslationStore.store) (acts : list action) :
  let t := foldl act (opened w) acts in
  history t ≡ₚ fst (getAll (store t))
  ∧ (∀ i s, (i, s) ∈ history t ↔ get i (store t) = Some s)
  ∧ StronglySorted not_older (history t).
Proof.
  simpl.
  assert (H : consistent (foldl act (opened w) acts)).
  { generalize (opened_consistent w). generalize (opened w).
    induction acts as [|a acts IH]; intros t Ht; [done|].
    simpl. apply IH. by apply act_consistent. }
  destruct H as (Hl & Hnd & Hel & Hs). split; [|by split].
  unfold getAll, ensureLoaded. rewrite Hl. simpl. unfold entries_sorted.
  rewrite js_sort_perm.
  apply list.NoDup_Permutation; [done|apply NoDup_map_to_list|].
  intros [i s]. by rewrite Hel, elem_of_map_to_list.
Qed.

(** X17.  The age shown in a history row.  With [age = now - timestamp]
    in milliseconds: under a minute (a timestamp in the future included)
    the row says "just now"; under an hour it gives the whole minutes,
    between 1 and 59; under a day the whole hours, between 1 and 23;
    under thirty days the whole days, between 1 and 29; from thirty days
    on it gives the date. *)
Theorem relative_time_buckets (toLocaleDateString : Z → string) (now timestamp : Z) :
  let age := now - timestamp in
  let label := formatRelativeTime toLocaleDateString now timestamp in
  (age < 60000 → label = "just now")
  ∧ (60000 ≤ age < 3600000 →
     label = pretty (age / 60000) +:+ "m ago" ∧ 1 ≤ age / 60000 ≤ 59)
  ∧ (3600000 ≤ age < 86400000 →
     label = pretty (age / 3600000) +:+ "h ago" ∧ 1 ≤ age / 3600000 ≤ 23)
  ∧ (86400000 ≤ age < 2592000000 →
     label = pretty (age / 86400000) +:+ "d ago" ∧ 1 ≤ age / 86400000 ≤ 29)
  ∧ (2592000000 ≤ age → label = toLocaleDateString timestamp).
Proof.
  intros age label. subst label. unfold formatRelativeTime. fold age.
  generalize age. clear age. intros age.
  assert (Hm : age / 1000 / 60 = age / 60000)
    by (rewrite Z.div_div by lia; done).
  assert (Hh : age / 1000 / 60 / 60 = age / 3600000)
    by (rewrite !Z.div_div by lia; done).
  assert (Hd : age / 1000 / 60 / 60 / 24 = age / 86400000)
    by (rewrite !Z.div_div by lia; done).
  rewrite Hd, Hh, Hm.
  assert (Bs : age < 60000 ↔ age / 1000 < 60)
    by (split; intros; [apply Z.div_lt_upper_bound|
                        apply Z.nle_gt; intros ?; assert (60 ≤ age / 1000)
                          by (apply Z.div_le_lower_bound; lia)]; lia).
  assert (Bm : age < 3600000 ↔ age / 60000 < 60)
    by (split; intros; [apply Z.div_lt_upper_bound|
                        apply Z.nle_gt; intros ?; assert (60 ≤ age / 60000)
                          by (apply Z.div_le_lower_bound; lia)]; lia).
  assert (Bh : age < 86400000 ↔ age / 3600000 < 24)
    by (split; intros; [apply Z.div_lt_upper_bound|
                        apply Z.nle_gt; intros ?; assert (24 ≤ age / 3600000)
                          by (apply Z.div_le_lower_bound; lia)]; lia).
  assert (Bd : age < 2592000000 ↔ age / 86400000 < 30)
    by (split; intros; [apply Z.div_lt_upper_bound|
                        apply Z.nle_gt; intros ?; assert (30 ≤ age / 86400000)
                          by (apply Z.div_le_lower_bound; lia)]; lia).
  assert (L1 : 60000 ≤ age → 1 ≤ age / 60000)
    by (intros; apply Z.div_le_lower_bound; lia).
  assert (L2 : 3600000 ≤ age → 1 ≤ age / 3600000)
    by (intros; apply Z.div_le_lower_bound; lia).
  assert (L3 : 86400000 ≤ age → 1 ≤ age / 86400000)
    by (intros; apply Z.div_le_lower_bound; lia).
  destruct (age / 1000 <? 60) eqn:E1;
    [apply Z.ltb_lt in E1|apply Z.ltb_ge in E1];
  destruct (age / 60000 <? 60) eqn:E2;
    [apply Z.ltb_lt in E2|apply Z.ltb_ge in E2| |];
  try (apply Z.ltb_lt in E2); try (apply Z.ltb_ge in E2);
  destruct (age / 3600000 <? 24) eqn:E3;
    try (apply Z.ltb_lt in E3); try (apply Z.ltb_ge in E3);
  destruct (age / 86400000 <? 30) eqn:E4;
    try (apply Z.ltb_lt in E4); try (apply Z.ltb_ge in E4);
  repeat split; intros; try done; try lia.
Qed.
End history_extras.

(** ** The OpenRouter backend *)
Section openrouter_extras.
Import OpenRouter.
Variable fetchOpenRouterModels : string → response.
Variable makeOpenRouterTranslateRequest : string → string → string → response.
Variable parse_models : string → option (list OpenRouterModel).
Variable parse_chat : string → option OpenRouterChatResponse.
Variable parse_strings : string → option (list string).
Variable syntax_error : string → string.
Variable stringify : list string → string.
Variable localeCompare : string → string → Z.
Variable trim : string → string.
Variable replace_placeholder : string → string → string → string.

Lemma from_first_open_Some content rest :
  from_first_open content = Some rest →
  ∃ pre tail, content = pre +:+ rest
              ∧ rest = String "[" tail
              ∧ ¬ occurs "[" pre.
Proof.
  revert rest. induction content as [|c content IH]; intros rest H; simpl in H; [done|].
  destruct (Ascii.eqb c "[") eqn:E.
  - apply Ascii.eqb_eq in E as ->. injection H as <-.
    exists "", content. repeat split; try done. by intros [].
  - apply Ascii.eqb_neq in E.
    destruct (IH rest H) as (pre & tail & -> & -> & Hpre).
    exists (String c pre), tail. repeat split. simpl. intuition.
Qed.

Lemma from_first_open_None content :
  from_first_open content = None → ¬ occurs "[" content.
Proof.
  induction content as [|c content IH]; simpl; [by intros _ []|].
  destruct (Ascii.eqb c "[") eqn:E; [done|].
  apply Ascii.eqb_neq in E. intuition.
Qed.

Lemma upto_last_close_Some s p :
  upto_last_close s = Some p →
  ∃ q post, p = q +:+ "]" ∧ s = p +:+ post ∧ ¬ occurs "]" post.
Proof.
  revert p. induction s as [|c s IH]; intros p H; simpl in H; [done|].
  destruct (upto_last_close s) as [p'|] eqn:E.
  - injection H as <-. destruct (IH p' eq_refl) as (q & post & -> & -> & Hpost).
    exists (String c q), post. by repeat split.
  - destruct (Ascii.eqb c "]") eqn:Ec; [|done].
    apply Ascii.eqb_eq in Ec as ->. injection H as <-.
    exists "", s. repeat split. clear IH.
    induction s as [|c s IH]; simpl in *; [by intros []|].
    destruct (upto_last_close s); [done|].
    destruct (Ascii.eqb c "]") eqn:Ec; [done|].
    apply Ascii.eqb_neq in Ec. intuition.
Qed.

Lemma upto_last_close_None s : upto_last_close s = None → ¬ occurs "]" s.
Proof.
  induction s as [|c s IH]; simpl; [by intros _ []|].
  destruct (upto_last_close s); [done|].
  destruct (Ascii.eqb c "]") eqn:Ec; [done|].
  apply Ascii.eqb_neq in Ec. intuition.
Qed.

Lemma occurs_app_r c a b : occurs c b → occurs c (a +:+ b).
Proof. induction a as [|x a IH]; simpl; [done|]. by right; apply IH. Qed.

Lemma from_first_open_app pre x :
  ∃ y, from_first_open (pre +:+ String "[" x) = Some (y +:+ String "[" x).
Proof.
  induction pre as [|c pre [y IH]]; simpl.
  - by exists "".
  - destruct (Ascii.eqb c "["); [by exists (String c pre)|by exists y].
Qed.

(** X18.  The bracket search of the batch reply, [/\[[\s\S]*\]/].  When
    it finds something, the reply is [pre ++ found ++ post] where [found]
    begins with an opening and ends with a closing bracket, no opening
    bracket comes before it and no closing bracket after it: code fences
    and commentary around the array are cut away.  It finds nothing
    exactly when the reply has no opening bracket that is followed,
    somewhere, by a closing one. *)
Theorem match_array_cuts_around_brackets (content : string) :
  match match_array content with
  | Some found =>
      ∃ pre inner post,
        content = pre +:+ found +:+ post
        ∧ found = "[" +:+ inner +:+ "]"
        ∧ ¬ occurs "[" pre
        ∧ ¬ occurs "]" post
  | None =>
      ¬ ∃ pre inner post, content = pre +:+ "[" +:+ inner +:+ "]" +:+ post
  end.
Proof.
  unfold match_array. destruct (from_first_open content) as [rest|] eqn:E1.
  - destruct (from_first_open_Some _ _ E1) as (pre & tail & -> & -> & Hpre).
    destruct (upto_last_close (String "[" tail)) as [p|] eqn:E2.
    + destruct (upto_last_close_Some _ _ E2) as (q & post & -> & Hs & Hpost).
      destruct q as [|c q]; [by simpl in Hs|]. simpl in Hs. injection Hs as <- Hs.
      exists pre, q, post. repeat split; try done. simpl. by rewrite Hs.
    + apply upto_last_close_None in E2.
      intros (pre' & inner & post & Heq).
      destruct (from_first_open_app pre' (inner +:+ "]" +:+ post)) as [y Hy].
      assert (Hy' : from_first_open (pre +:+ String "[" tail)
                    = Some (y +:+ String "[" (inner +:+ "]" +:+ post)))
        by (rewrite Heq; exact Hy).
      rewrite E1 in Hy'. injection Hy' as Hy'.
      apply E2. rewrite Hy'. apply occurs_app_r. simpl. right.
      apply occurs_app_r. simpl. by left.
  - apply from_first_open_None in E1.
    intros (pre & inner & post & ->). apply E1.
    apply occurs_app_r. simpl. by left.
Qed.

Let translateBatch :=
  translateBatchWithLLM makeOpenRouterTranslateRequest parse_chat parse_strings
    syntax_error stringify trim.

(** X19.  A batch translation never passes off a result of the wrong
    length in silence, and never labels a source language: whenever it
    returns, every translation has source language "LLM", and the number
    of translations differs from the number of texts exactly when the
    mismatch has been written to the console. *)
Theorem batch_mismatch_is_never_silent
    (s : settings) (texts : list string) (targetLang : string)
    (translations : list TranslationValue) (ev : list event) :
  translateBatch s texts targetLang = (inr translations, ev) →
  Forall (λ t, tv_sourceLanguage t = "LLM") translations
  ∧ (length translations ≠ length texts
     ↔ ConsoleWarn (length texts) (length translations) ∈ ev)
  ∧ (texts = [] → translations = [] ∧ ev = []).
Proof.
  unfold translateBatch, translateBatchWithLLM.
  destruct (negb (truthy (openrouterApiKey s))); [done|].
  destruct texts as [|t texts]; simpl.
  { intros [= <- <-]. split; [constructor|]. split; [|done].
    split; [done|]. by intros ?%elem_of_nil. }
  set (r := makeOpenRouterTranslateRequest _ _ _).
  destruct (negb (status r =? 200)); [done|].
  destruct (parse_chat (data r)) as [resp|]; [|done].
  destruct (negb (truthy (first_content resp))); [done|].
  destruct (match_array _) as [jsonMatch|]; [|done].
  destruct (parse_strings jsonMatch) as [results|]; [|done].
  intros [= <- <-]. rewrite length_map.
  split; [|split; [|done]].
  - apply Forall_forall. intros x Hx. apply list_elem_of_fmap in Hx as (y & -> & _). done.
  - destruct (length results =? S (length texts))%nat eqn:E; simpl.
    + apply Nat.eqb_eq in E. split; [done|].
      intros Hin. apply elem_of_cons in Hin as [Hin|Hin]; [done|].
      by apply elem_of_nil in Hin.
    + apply Nat.eqb_neq in E. split; [|done]. intros _.
      apply elem_of_cons. right. apply list_elem_of_here.
Qed.

(** X20.  When a single-text translation succeeds.  [translateWithLLM]
    shows the missing-key toast and sends nothing when the key is unset or
    empty, and otherwise sends exactly one request and shows no toast; it
    returns a translation exactly when that request is answered with
    status 200, the body parses, carries no [error] and has a non-empty
    first message content, and the translation is then that content
    trimmed, with source language "LLM". *)
Theorem llm_translation_succeeds_exactly_when
    (s : llm_settings) (text targetLang : string) :
  let translate := translateWithLLM makeOpenRouterTranslateRequest parse_chat
                     syntax_error trim replace_placeholder in
  let model := normalizeValue (openrouterModel (store s)) "openai/gpt-4o-mini" in
  let apiKey := default "" (openrouterApiKey (store s)) in
  let prompt := llm_prompt replace_placeholder s text targetLang in
  let r := makeOpenRouterTranslateRequest apiKey model prompt in
  snd (translate s text targetLang)
  = (if truthy (openrouterApiKey (store s))
     then [TranslateRequest apiKey model prompt]
     else [ShowToast "OpenRouter API key is not set. Please configure it in settings."
             FAILURE])
  ∧ ∀ result,
      fst (translate s text targetLang) = inr result ↔
      ∃ resp content,
        truthy (openrouterApiKey (store s)) = true
        ∧ status r = 200
        ∧ parse_chat (data r) = Some resp
        ∧ error resp = None
        ∧ first_content resp = Some content
        ∧ content ≠ ""
        ∧ result = {| tv_text := trim content; tv_sourceLanguage := "LLM" |}.
Proof.
  intros translate model apiKey prompt r. subst translate.
  unfold translateWithLLM. fold model. fold apiKey. fold prompt. fold r.
  destruct (truthy (openrouterApiKey (store s))) eqn:Ekey; simpl.
  2:{ split; [done|]. intros result. split; [done|]. by intros (? & ? & ? & _). }
  destruct (status r =? -1) eqn:E1.
  { apply Z.eqb_eq in E1. split; [done|]. intros result. split; [done|].
    intros (? & ? & ? & ? & _). lia. }
  destruct (status r =? 401) eqn:E2.
  { apply Z.eqb_eq in E2. split; [done|]. intros result. split; [done|].
    intros (? & ? & ? & ? & _). lia. }
  destruct (status r =? 402) eqn:E3.
  { apply Z.eqb_eq in E3. split; [done|]. intros result. split; [done|].
    intros (? & ? & ? & ? & _). lia. }
  destruct (status r =? 429) eqn:E4.
  { apply Z.eqb_eq in E4. split; [done|]. intros result. split; [done|].
    intros (? & ? & ? & ? & _). lia. }
  destruct (status r =? 200) eqn:E5; simpl.
  2:{ apply Z.eqb_neq in E5. split; [done|]. intros result. split; [done|].
      intros (? & ? & ? & ? & _). lia. }
  apply Z.eqb_eq in E5.
  destruct (parse_chat (data r)) as [resp|] eqn:Ep.
  2:{ split; [done|]. intros result. split; [done|].
      by intros (? & ? & ? & ? & ? & _). }
  destruct (error resp) as [[msg code]|] eqn:Ee.
  { split; [done|]. intros result. split; [done|].
    intros (? & ? & ? & ? & ? & ? & _). by simplify_eq. }
  destruct (first_content resp) as [content|] eqn:Ec; simpl.
  2:{ split; [done|]. intros result. split; [done|].
      intros (? & ? & ? & ? & ? & ? & ? & _). by simplify_eq. }
  destruct (bool_decide (content ≠ "")) eqn:En; simpl.
  - apply bool_decide_eq_true in En. split; [done|]. intros result. split.
    + intros [= <-]. by exists resp, content.
    + intros (? & ? & ? & ? & ? & ? & ? & ? & ?). by simplify_eq.
  - apply bool_decide_eq_false in En. split; [done|]. intros result. split; [done|].
    intros (? & ? & ? & ? & ? & ? & ? & ? & ?). by simplify_eq.
Qed.

Let fetch := fetchModels fetchOpenRouterModels parse_models syntax_error localeCompare.
Let refresh := handleRefresh fetchOpenRouterModels parse_models syntax_error localeCompare.

(** X21.  A listing that fails changes nothing: the settings, the cache
    among them, are as before; without a key not even a request is made;
    and the model select that asked for the refresh keeps the list it
    showed, stops loading and shows the failure. *)
Theorem failed_listing_changes_nothing
    (s : settings) (c : model_select) (e : thrown) :
  fst (fst (fetch s)) = inl e →
  snd (fst (fetch s)) = s
  ∧ (truthy (openrouterApiKey s) = false → snd (fetch s) = [])
  ∧ fst (fst (refresh s c))
    = ModelSelect (models c) false
        (toasts c ++ [(message_or "Failed to fetch models" e, FAILURE)])
  ∧ snd (fst (refresh s c)) = s.
Proof.
  unfold refresh, handleRefresh. fold fetch.
  destruct (fetch s) as [[result s'] ev] eqn:E. simpl. intros ->. simpl.
  assert (Hs : s' = s ∧ (truthy (openrouterApiKey s) = false → ev = [])).
  { unfold fetch, fetchModels in E.
    destruct (openrouterApiKey s) as [k|]; simpl; [|by injection E as _ <- <-].
    destruct (bool_decide (k = "")) eqn:Ek; [by injection E as _ <- <-|].
    apply bool_decide_eq_false in Ek.
    rewrite bool_decide_eq_true_2 by done.
    destruct (status (fetchOpenRouterModels k) =? -1); [by injection E as _ <- <-|].
    destruct (status (fetchOpenRouterModels k) =? 401); [by injection E as _ <- <-|].
    destruct (negb (status (fetchOpenRouterModels k) =? 200)); [by injection E as _ <- <-|].
    destruct (parse_models (data (fetchOpenRouterModels k))); [done|].
    by injection E as _ <- <-. }
  destruct Hs as [-> Hev]. by repeat split.
Qed.

Let strip (m : OpenRouterModel) : OpenRouterModel :=
  {| id := id m; name := name m; pricing := None |}.

Lemma find_listed l m :
  NoDup (map id l) → m ∈ l →
  List.find (λ x, bool_decide (id x = id m)) (map strip l) = Some (strip m).
Proof.
  induction l as [|x l IH]; intros Hnd Hm; [by apply elem_of_nil in Hm|].
  simpl in *. apply NoDup_cons in Hnd as [Hx Hnd].
  destruct (decide (id x = id m)) as [E|E].
  - rewrite bool_decide_eq_true_2 by done.
    apply elem_of_cons in Hm as [->|Hm]; [done|].
    exfalso. apply Hx. rewrite E. apply list_elem_of_In, in_map, list_elem_of_In, Hm.
  - rewrite bool_decide_eq_false_2 by done.
    apply elem_of_cons in Hm as [->|Hm]; [done|]. by apply IH.
Qed.

Lemma find_unlisted l i :
  i ∉ map id l → List.find (λ x, bool_decide (id x = i)) (map strip l) = None.
Proof.
  induction l as [|x l IH]; intros Hi; [done|].
  simpl in *. apply not_elem_of_cons in Hi as [Hx Hi].
  rewrite bool_decide_eq_false_2 by done. by apply IH.
Qed.

(** X22.  After a listing that succeeded, with distinct model ids: the
    display name of every listed model is the name the provider gave, the
    display name of any other id is the id itself, and, if the list is not
    empty, [getModels] answers from the cache without a request, with the
    listed ids and names and no pricing. *)
Theorem listed_models_are_cached_by_name
    (s : settings) (apiKey : string) (listed : list OpenRouterModel) :
  openrouterApiKey s = Some apiKey →
  apiKey ≠ "" →
  status (fetchOpenRouterModels apiKey) = 200 →
  parse_models (data (fetchOpenRouterModels apiKey)) = Some listed →
  NoDup (map id listed) →
  let s' := snd (fst (fetch s)) in
  (∀ m, m ∈ listed → getModelDisplayName s' (id m) = name m)
  ∧ (∀ i, i ∉ map id listed → getModelDisplayName s' i = i)
  ∧ (listed ≠ [] →
     ∃ cached,
       getModels fetchOpenRouterModels parse_models syntax_error localeCompare s'
       = (inr cached, s', [])
       ∧ map (λ m, (id m, name m)) cached ≡ₚ map (λ m, (id m, name m)) listed
       ∧ Forall (λ m, pricing m = None) cached).
Proof.
  intros Hkey Hne Hstatus Hparse Hnd s'.
  set (sorted := js_sort (by_name localeCompare) listed).
  assert (Hp : sorted ≡ₚ listed) by apply js_sort_perm.
  assert (Hs' : s' = Settings (openrouterApiKey s) (openrouterModel s)
                       (Some (map strip sorted))).
  { subst s'. unfold fetch, fetchModels. rewrite Hkey.
    rewrite bool_decide_eq_false_2 by done.
    rewrite Hstatus. simpl. rewrite Hparse. simpl. by rewrite map_rebuild. }
  rewrite Hs'. clear Hs' s'.
  assert (Hnd' : NoDup (map id sorted)) by (by rewrite (Permutation_map id Hp)).
  split; [|split].
  - intros m Hm. unfold getModelDisplayName. simpl.
    rewrite find_listed; [done|done|by rewrite Hp].
  - intros i Hi. unfold getModelDisplayName. simpl.
    rewrite find_unlisted; [done|]. by rewrite (Permutation_map id Hp).
  - intros Hlisted. exists (map strip sorted). split; [|split].
    + unfold getModels. simpl.
      destruct (map strip sorted) eqn:E; [|done].
      apply (f_equal length) in E. rewrite length_map, Hp in E.
      by destruct listed.
    + rewrite map_map. simpl. by rewrite (Permutation_map _ Hp).
    + apply Forall_forall. intros x Hx.
      apply list_elem_of_fmap in Hx as (y & -> & _). done.
Qed.
End openrouter_extras.

(** ** The properties above at concrete inputs *)
Section extras_at_inputs.
Import Examples Scenarios.

Lemma hydrated_store_is_not_read_again_witness :
  let c := TranslationStore.run_schedule [0; 1; 0; 1; 0]%nat (two_calls, hydrated) in
  TranslationStore._loaded (snd c) = true
  ∧ TranslationStore.loads (snd c) = TranslationStore.loads hydrated
  ∧ Forall TranslationStore.not_hydrating (fst c).
Proof.
  apply (hydrated_store_is_not_read_again two_calls [0; 1; 0; 1; 0]%nat hydrated).
  - reflexivity.
  - repeat constructor.
Defined.

Lemma select_flips_one_message_witness :
  let s := SelectionMode.run one_selected in
  let s' := SelectionMode.toggleMessageSelection "2" "c" s in
  ("2" ∈ SelectionMode._selectedIds s' ↔ "2" ∉ SelectionMode._selectedIds s)
  ∧ SelectionMode.getSelectedCount s' = 2%nat.
Proof.
  destruct (select_flips_one_message one_selected "2" "c")
    as (Hin & _ & Hcount & _).
  - reflexivity.
  - right. reflexivity.
  - split; [exact Hin|exact Hcount].
Defined.

Lemma batch_keeps_progress_in_range_witness :
  let a' := SelectionActionBar.handleTranslateSelected always_answers newer_selected_first in
  ∃ new k,
    SelectionActionBar.events a' = SelectionActionBar.events newer_selected_first ++ new
    ∧ (k ≤ 2)%nat
    ∧ ∀ j, ProgressBar.invariant
             (ProgressBar.run (take (S j) (BatchProgress.progress_calls new))
                (SelectionActionBar.progress newer_selected_first)).
Proof.
  destruct (batch_keeps_progress_in_range always_answers newer_selected_first "c")
    as (new & k & Hev & Hk & _ & _ & _ & Hinv).
  - reflexivity.
  - discriminate.
  - discriminate.
  - exists new, k. split; [exact Hev|]. split; [exact Hk|exact Hinv].
Defined.

Lemma shown_bar_translates_and_closes_witness :
  BatchProgress.bar_shown
    (SelectionActionBar.selection
       (SelectionActionBar.handleTranslateSelected always_answers newer_selected_first))
  = false.
Proof.
  destruct (shown_bar_translates_and_closes always_answers newer_first
              newer_selected_first) as [Hgone _].
  - repeat constructor; simpl; discriminate.
  - reflexivity.
  - reflexivity.
  - exact Hgone.
Defined.




Lemma batch_of_unresolvable_selection_witness :
  let a' := SelectionActionBar.handleTranslateSelected silent_channel silent_selected in
  SelectionActionBar.events a'
  = SelectionActionBar.events silent_selected
      ++ [SelectionActionBar.SetIsTranslating true; SelectionActionBar.StartProgress 0;
          SelectionActionBar.ShowToast "Translated 0 messages" SUCCESS;
          SelectionActionBar.EndProgress; SelectionActionBar.SetIsTranslating false;
          SelectionActionBar.ExitSelectionMode]
  ∧ SelectionActionBar.translations a' = SelectionActionBar.translations silent_selected
  ∧ SelectionMode._isSelectionMode (SelectionActionBar.selection a') = false.
Proof.
  apply (batch_of_unresolvable_selection silent_channel silent_selected "c").
  - reflexivity.
  - discriminate.
  - discriminate.
  - intros m Hm _. apply list_elem_of_singleton in Hm. by subst m.
Defined.

Lemma message_translation_outcome_witness :
  let c' := MessageActions.translateMessage always_answers "1" "hola" one_mounted in
  ProgressBar._isTranslating (MessageActions.progress c') = false
  ∧ TranslationAccessory.shown "1" (MessageActions.accessories c')
    = TranslationAccessory.Translated "hola" "es".
Proof.
  destruct (message_translation_outcome always_answers "1" "hola" one_mounted
              TranslationAccessory.blank) as (Hdone & _ & _ & Hshown & _).
  - reflexivity.
  - split; [exact Hdone|exact Hshown].
Defined.

Lemma popover_click_keeps_other_selections_witness :
  "1" ∈ SelectionMode._selectedIds
          (MessageActions.selection
             (MessageActions.popover_click always_answers message_two one_mounted))
  ↔ "1" ∈ SelectionMode._selectedIds (MessageActions.selection one_mounted).
Proof.
  destruct (popover_click_keeps_other_selections always_answers message_two
              one_mounted "1") as [Hkeep _].
  - discriminate.
  - exact Hkeep.
Defined.

Lemma channel_translation_round_trip_witness :
  let s1 := ChannelMenu.choose always_answers "c" one_channel in
  ChannelMenu.names s1 !! "c" = Some "general [general]"
  ∧ ChannelMenu.names (ChannelMenu.choose always_answers "c" s1)
    = ChannelMenu.names one_channel.
Proof.
  destruct (channel_translation_round_trip always_answers "c" "general" one_channel)
    as (_ & _ & Hname & _ & Hback & _).
  - reflexivity.
  - discriminate.
  - reflexivity.
  - split; [exact Hname|exact Hback].
Defined.

Lemma batch_mismatch_is_never_silent_witness :
  ∃ translations ev,
    OpenRouter.translateBatchWithLLM replies_with_two parse_chat_two parse_strings_two
      no_message no_stringify no_trim key_set ["uno"; "dos"; "tres"] "English"
    = (inr translations, ev)
    ∧ (length translations ≠ 3%nat
       ↔ OpenRouter.ConsoleWarn 3 (length translations) ∈ ev).
Proof.
  eexists _, _. split; [reflexivity|].
  destruct (batch_mismatch_is_never_silent replies_with_two parse_chat_two
              parse_strings_two no_message no_stringify no_trim key_set
              ["uno"; "dos"; "tres"] "English" _ _ eq_refl) as (_ & Hwarn & _).
  exact Hwarn.
Defined.

Lemma failed_listing_changes_nothing_witness :
  snd (fst (OpenRouter.fetchModels offline no_models no_message by_length
              key_set_cache_empty))
  = key_set_cache_empty.
Proof.
  destruct (failed_listing_changes_nothing offline no_models no_message by_length
              key_set_cache_empty (OpenRouter.ModelSelect [] true [])
              (Error "Failed to connect to OpenRouter API: offline"))
    as (Hsame & _).
  - reflexivity.
  - exact Hsame.
Defined.

Lemma two_models_distinct : NoDup (map OpenRouter.id [gpt; claude]).
Proof.
  apply NoDup_cons. split; [|apply NoDup_singleton].
  intros H%list_elem_of_singleton. discriminate.
Qed.

Lemma listed_models_are_cached_by_name_witness :
  OpenRouter.getModelDisplayName
    (snd (fst (OpenRouter.fetchModels lists_two parse_two_models no_message by_length
                 key_set)))
    "anthropic/claude-3-haiku"
  = "Claude 3 Haiku".
Proof.
  destruct (listed_models_are_cached_by_name lists_two parse_two_models no_message
              by_length key_set "sk-or-1" [gpt; claude])
    as (Hname & _).
  - reflexivity.
  - discriminate.
  - reflexivity.
  - reflexivity.
  - exact two_models_distinct.
  - apply (Hname claude). apply list_elem_of_further, list_elem_of_here.
Defined.
End extras_at_inputs.
